(** * The iSCSI Common Layer driver registry (sys/dev/iscsi/icl.c)

    A shallow embedding of the ICL module registry: the queue of registered
    offload drivers hanging off the softc, the lookup [icl_find], the entry
    points [icl_new_conn], [icl_limits], [icl_register], [icl_unregister],
    the sysctl handler listing the drivers, and module load and unload.

    Conventions of the embedding.
    - A C string ([char *] to a NUL-terminated array) is a [string] holding
      the characters before the terminator; a pointer that may be NULL is an
      [option].
    - The [TAILQ] of modules is a [list], head first. A pointer to a queue
      element is its position in the queue, carried together with the record
      it points to.
    - [int] values are in [Z]; priorities are only ever compared.
    - The code runs in a small state-and-failure monad over the kernel state:
      the softc behind the global [sc], the message log, the number of live
      allocations of malloc type [M_ICL], and the state of the drivers that
      the registered callbacks act on. *)

From stdpp Require Import base tactics option list strings.
From Stdlib Require Import ZArith Ascii.

Local Open Scope Z_scope.

(** ** Strings *)

Definition char_code (c : ascii) : Z := Z.of_N (N_of_ascii c).

Definition isupper (c : ascii) : bool :=
  (65 <=? char_code c) && (char_code c <=? 90).

Definition tolower (c : ascii) : ascii :=
  if isupper c then ascii_of_N (N_of_ascii c + 32) else c.

(** Modelled from the spec: [strcasecmp] lives in libkern, which is not among
    the sources; the spec calls the comparison a case-insensitive exact
    match.  The two strings are walked in step, comparing the lower-cased
    characters; the result is zero when both end together, and the
    difference of the first two lower-cased characters that differ otherwise
    (the terminator counting as character 0). *)
Fixpoint strcasecmp (s1 s2 : string) : Z :=
  match s1, s2 with
  | EmptyString, EmptyString => 0
  | EmptyString, String c2 _ => 0 - char_code (tolower c2)
  | String c1 _, EmptyString => char_code (tolower c1) - 0
  | String c1 r1, String c2 r2 =>
      if Ascii.eqb (tolower c1) (tolower c2) then strcasecmp r1 r2
      else char_code (tolower c1) - char_code (tolower c2)
  end.

(** Modelled from the spec: [strdup] (libkern) returns an owned copy of the
    string; it reads through its argument, so a NULL argument faults. *)
Definition strdup_copy (s : string) : string := s.

(** The test [name == NULL || name[0] == 0] opening [icl_find]. *)
Definition name_unspecified (name : option string) : bool :=
  match name with
  | None => true
  | Some EmptyString => true
  | Some (String _ _) => false
  end.

(** ** Errno values ([sys/errno.h]) *)

Definition ENXIO : Z := 6.
Definition EBUSY : Z := 16.
Definition EINVAL : Z := 22.

(** ** The sx lock, seen by the one thread of this model *)

Inductive sx : Type :=
  | sx_unlocked
  | sx_shared (others : nat)   (* held shared by [S others] holders *)
  | sx_exclusive.

Inductive failure : Type :=
  | page_fault                  (* NULL or freed pointer dereferenced *)
  | kassert (msg : string)      (* KASSERT / sx_assert failed: panic *)
  | sx_sleep                    (* sleeps on a lock nobody will release *)
  | sx_misuse.                  (* unlock or destroy of a lock in the wrong state *)

(** ** Messages of ICL_WARN and ICL_DEBUG, by format string *)

Inductive icl_msg : Type :=
  | msg_not_found              (* offload "%s" not found *)
  | msg_already_registered     (* offload "%s" already registered *)
  | msg_not_registered         (* offload "%s" not registered *)
  | msg_registered             (* offload "%s" registered *)
  | msg_unregistered.          (* offload "%s" unregistered *)

Section Model.

(** What the registry hands through without looking inside: the state the
    drivers' callbacks act on, connection handles, the caller's mutex and
    the caller's [size_t *]. *)
Context {W conn mtx limitp : Type}.

(** The types of the two callbacks of a module: the limits callback takes
    the caller's pointer to a size and returns an int; the connection
    factory takes a connection name and a mutex and returns a connection,
    NULL being [None]. *)
Definition limits_fn : Type := limitp → W → Z * W.
Definition new_conn_fn : Type := string → mtx → W → option conn * W.

Record icl_module : Type := {
  im_name : string;
  im_priority : Z;
  im_limits : limits_fn;
  im_new_conn : new_conn_fn;
}.

Record icl_softc : Type := {
  sc_lock : sx;
  sc_modules : list icl_module;
}.

(** One entry of the kernel's observable history: a logged message, or an
    indirect call through a registered callback with its arguments. *)
Inductive event : Type :=
  | ev_warn (m : icl_msg) (offload : option string)
  | ev_debug (m : icl_msg) (offload : option string)
  | ev_limits (f : limits_fn) (p : limitp)
  | ev_new_conn (f : new_conn_fn) (name : string) (lock : mtx).

Record kstate : Type := {
  sc : option icl_softc;     (* the global [sc]; [None] when not loaded *)
  klog : list event;
  m_icl : nat;               (* live allocations of malloc type M_ICL *)
  drivers : W;
}.

Inductive outcome (A : Type) : Type :=
  | Done (a : A) (k : kstate)
  | Fail (e : failure).
Global Arguments Done {A} a k.
Global Arguments Fail {A} e.

Definition kern (A : Type) : Type := kstate → outcome A.

Definition ret {A} (a : A) : kern A := λ k, Done a k.
Definition bind {A B} (m : kern A) (f : A → kern B) : kern B :=
  λ k, match m k with Done a k' => f a k' | Fail e => Fail e end.
Definition fail {A} (e : failure) : kern A := λ _, Fail e.

End Model.

Declare Scope kern_scope.
Delimit Scope kern_scope with kern.
Notation "x <- m ;; f" := (bind m (λ x, f))
  (at level 100, m at next level, right associativity) : kern_scope.
Notation "m ;; f" := (bind m (λ _, f))
  (at level 100, right associativity) : kern_scope.

Section Code.

Context {W conn mtx limitp : Type}.

Abbreviation icl_module := (@icl_module W conn mtx limitp).
Abbreviation icl_softc := (@icl_softc W conn mtx limitp).
Abbreviation kstate := (@kstate W conn mtx limitp).
Abbreviation kern := (@kern W conn mtx limitp).
Abbreviation event := (@event W conn mtx limitp).

Local Open Scope kern_scope.

(** *** State access *)

Definition with_sc (s : option icl_softc) (k : kstate) : kstate :=
  {| sc := s; klog := klog k; m_icl := m_icl k; drivers := drivers k |}.
Definition with_log (l : list event) (k : kstate) : kstate :=
  {| sc := sc k; klog := l; m_icl := m_icl k; drivers := drivers k |}.
Definition with_m_icl (n : nat) (k : kstate) : kstate :=
  {| sc := sc k; klog := klog k; m_icl := n; drivers := drivers k |}.
Definition with_drivers (w : W) (k : kstate) : kstate :=
  {| sc := sc k; klog := klog k; m_icl := m_icl k; drivers := w |}.

(** [*sc]: faults when the module is not loaded. *)
Definition softc : kern icl_softc :=
  λ k, match sc k with Some s => Done s k | None => Fail page_fault end.
Definition set_softc (s : icl_softc) : kern unit :=
  λ k, Done tt (with_sc (Some s) k).

Definition set_lock (l : sx) : kern unit :=
  s <- softc ;; set_softc {| sc_lock := l; sc_modules := sc_modules s |}.
Definition set_modules (q : list icl_module) : kern unit :=
  s <- softc ;; set_softc {| sc_lock := sc_lock s; sc_modules := q |}.
(** [sc->sc_modules] *)
Definition modules : kern (list icl_module) :=
  s <- softc ;; ret (sc_modules s).

Definition emit (e : event) : kern unit :=
  λ k, Done tt (with_log (klog k ++ [e]) k).

(** Modelled from the spec: ICL_WARN and ICL_DEBUG are macros of icl.h,
    which is not among the sources; the spec has a warning entry logged on
    failure and a diagnostic entry on success. *)
Definition ICL_WARN (m : icl_msg) (offload : option string) : kern unit :=
  emit (ev_warn m offload).
Definition ICL_DEBUG (m : icl_msg) (offload : option string) : kern unit :=
  emit (ev_debug m offload).

(** [malloc(..., M_ICL, M_ZERO | M_WAITOK)] cannot fail. *)
Definition malloc_icl : kern unit :=
  λ k, Done tt (with_m_icl (S (m_icl k)) k).
Definition free_icl : kern unit :=
  λ k, Done tt (with_m_icl (pred (m_icl k)) k).
(** [strdup(s, M_ICL)] *)
Definition strdup (s : option string) : kern string :=
  match s with
  | None => fail page_fault
  | Some s => malloc_icl ;; ret (strdup_copy s)
  end.

(** *** sx(9)

    Modelled from the spec: the sx primitives are not among the sources;
    the spec has any number of shared holders or one exclusive holder, and
    acquisition blocking until the conflicting holder releases. *)
Definition sx_slock : kern unit :=
  s <- softc ;;
  match sc_lock s with
  | sx_unlocked => set_lock (sx_shared 0)
  | sx_shared n => set_lock (sx_shared (S n))
  | sx_exclusive => fail sx_sleep
  end.
Definition sx_sunlock : kern unit :=
  s <- softc ;;
  match sc_lock s with
  | sx_shared 0 => set_lock sx_unlocked
  | sx_shared (S n) => set_lock (sx_shared n)
  | _ => fail sx_misuse
  end.
Definition sx_xlock : kern unit :=
  s <- softc ;;
  match sc_lock s with
  | sx_unlocked => set_lock sx_exclusive
  | _ => fail sx_sleep
  end.
Definition sx_xunlock : kern unit :=
  s <- softc ;;
  match sc_lock s with
  | sx_exclusive => set_lock sx_unlocked
  | _ => fail sx_misuse
  end.
(** [sx_assert(&sc->sc_lock, SA_LOCKED)], taken as checked (a kernel with
    INVARIANTS). *)
Definition sx_assert_locked : kern unit :=
  s <- softc ;;
  match sc_lock s with
  | sx_unlocked => fail (kassert "Lock not locked")
  | _ => ret tt
  end.
Definition sx_init : kern unit := set_lock sx_unlocked.
Definition sx_destroy : kern unit :=
  s <- softc ;;
  match sc_lock s with
  | sx_unlocked => ret tt
  | _ => fail sx_misuse
  end.

(** Modelled from the spec: KASSERT is a macro of the kernel headers, which
    are not among the sources; the spec has a failed check end in a fatal
    assertion, not in an error the caller could handle. *)
Definition KASSERT (cond : bool) (msg : string) : kern unit :=
  if cond then ret tt else fail (kassert msg).

(** [TAILQ_EMPTY(&sc->sc_modules)] *)
Definition TAILQ_EMPTY (q : list icl_module) : bool :=
  match q with [] => true | _ :: _ => false end.

(** *** Indirect calls through a module's callbacks *)

Definition call_limits (f : limits_fn) (p : limitp) : kern Z :=
  emit (ev_limits f p) ;;
  λ k, let r := f p (drivers k) in Done r.1 (with_drivers r.2 k).
Definition call_new_conn (f : new_conn_fn) (name : string) (lock : mtx)
  : kern (option conn) :=
  emit (ev_new_conn f name lock) ;;
  λ k, let r := f name lock (drivers k) in Done r.1 (with_drivers r.2 k).

(** *** icl_find *)

(** The body of the priority loop, run over the part of the queue still to
    visit: [i] is the position of the next element and [im_max] the best
    one so far. *)
Fixpoint scan_priority (i : nat) (rest : list icl_module)
    (im_max : nat * icl_module) : nat * icl_module :=
  match rest with
  | [] => im_max
  | im :: rest' =>
      scan_priority (S i) rest'
        (if im_priority im >? im_priority im_max.2 then (i, im) else im_max)
  end.

(** [im_max = TAILQ_FIRST(...); TAILQ_FOREACH(...) ...; return (im_max);]
    On an empty queue [TAILQ_FIRST] is NULL and the loop body never runs. *)
Definition find_highest (q : list icl_module) : option (nat * icl_module) :=
  match q with
  | [] => None
  | first :: _ => Some (scan_priority 0 q (0%nat, first))
  end.

(** The second loop: the first element whose name compares equal. *)
Definition find_named (name : string) (q : list icl_module)
  : option (nat * icl_module) :=
  list_find (λ im, strcasecmp (im_name im) name = 0) q.

(** The two loops of [icl_find] on a queue [q]. *)
Definition find_in (name : option string) (q : list icl_module)
  : option (nat * icl_module) :=
  match name with
  | None => find_highest q            (* name == NULL *)
  | Some "" => find_highest q         (* name[0] == 0 *)
  | Some name => find_named name q
  end.

Definition icl_find (name : option string) : kern (option (nat * icl_module)) :=
  sx_assert_locked ;;
  q <- modules ;;
  ret (find_in name q).

(** *** icl_new_conn *)

Definition icl_new_conn (offload : option string) (name : string) (lock : mtx)
  : kern (option conn) :=
  sx_slock ;;
  im <- icl_find offload ;;
  match im with
  | None =>
      ICL_WARN msg_not_found offload ;;
      sx_sunlock ;;
      ret None
  | Some (_, im) =>
      ic <- call_new_conn (im_new_conn im) name lock ;;
      sx_sunlock ;;
      ret ic
  end.

(** *** icl_limits *)

Definition icl_limits (offload : option string) (p : limitp) : kern Z :=
  sx_slock ;;
  im <- icl_find offload ;;
  match im with
  | None =>
      ICL_WARN msg_not_found offload ;;
      sx_sunlock ;;
      ret ENXIO
  | Some (_, im) =>
      error <- call_limits (im_limits im) p ;;
      sx_sunlock ;;
      ret error
  end.

(** *** icl_register *)

Definition icl_register (offload : option string) (priority : Z)
    (limits : limits_fn) (new_conn : new_conn_fn) : kern Z :=
  sx_xlock ;;
  im <- icl_find offload ;;
  match im with
  | Some _ =>
      ICL_WARN msg_already_registered offload ;;
      sx_xunlock ;;
      ret EBUSY
  | None =>
      malloc_icl ;;
      name <- strdup offload ;;
      let im := {| im_name := name; im_priority := priority;
                   im_limits := limits; im_new_conn := new_conn |} in
      q <- modules ;;
      set_modules (im :: q) ;;
      sx_xunlock ;;
      ICL_DEBUG msg_registered offload ;;
      ret 0
  end.

(** *** icl_unregister *)

Definition icl_unregister (offload : option string) : kern Z :=
  sx_xlock ;;
  im <- icl_find offload ;;
  match im with
  | None =>
      ICL_WARN msg_not_registered offload ;;
      sx_xunlock ;;
      ret ENXIO
  | Some (i, _) =>
      q <- modules ;;
      set_modules (delete i q) ;;
      sx_xunlock ;;
      free_icl ;;
      free_icl ;;
      ICL_DEBUG msg_unregistered offload ;;
      ret 0
  end.

(** *** sysctl kern.icl.drivers *)

(** The loop filling the sbuf, run over the part of the queue still to
    visit, [i] being the position of the next element: a space before every
    element but [TAILQ_FIRST], then the element's name. *)
Fixpoint print_drivers (i : nat) (rest : list icl_module) (sb : string)
  : string :=
  match rest with
  | [] => sb
  | im :: rest' =>
      let sb := if decide (i ≠ 0%nat) then sb +:+ " " else sb in
      print_drivers (S i) rest' (sb +:+ im_name im)
  end.

(** The request and [SYSCTL_OUT] belong to the sysctl framework and are
    taken as given: [sysctl_out req data] hands [data] (with its
    terminator, as SBUF_INCLUDENUL asks) to the request and yields the
    status and the request afterwards.  The auto-extending sbuf is
    allocated with M_WAITOK, so [sbuf_finish] returns 0. *)
Definition sysctl_kern_icl_drivers {sysctl_req : Type}
    (sysctl_out : sysctl_req → string → Z * sysctl_req) (req : sysctl_req)
  : kern (Z * sysctl_req) :=
  let sb := "" in
  sx_slock ;;
  q <- modules ;;
  let sb := print_drivers 0 q sb in
  sx_sunlock ;;
  let error := 0 in
  if error =? 0 then ret (sysctl_out req sb) else ret (error, req).

(** *** Module load and unload *)

Definition icl_load : kern Z :=
  malloc_icl ;;
  set_softc {| sc_lock := sx_unlocked; sc_modules := [] |} ;;
  sx_init ;;
  set_modules [] ;;
  ret 0.

(** [free(sc, M_ICL)]: the softc is gone, and [sc] is left pointing at
    nothing usable. *)
Definition free_softc : kern unit :=
  free_icl ;; λ k, Done tt (with_sc None k).

Definition icl_unload : kern Z :=
  sx_slock ;;
  q <- modules ;;
  KASSERT (TAILQ_EMPTY q) "still have modules" ;;
  sx_sunlock ;;
  sx_destroy ;;
  free_softc ;;
  ret 0.

Inductive modevent : Type := MOD_LOAD | MOD_UNLOAD | MOD_SHUTDOWN | MOD_QUIESCE.

Definition icl_modevent (what : modevent) : kern Z :=
  match what with
  | MOD_LOAD => icl_load
  | MOD_UNLOAD => icl_unload
  | _ => ret EINVAL
  end.

End Code.

(** ** States and runs *)

Section Runs.

Context {W conn mtx limitp : Type}.

Abbreviation icl_module := (@icl_module W conn mtx limitp).
Abbreviation kstate := (@kstate W conn mtx limitp).

(** The queue of registered modules; empty when the module is not loaded. *)
Definition registry (k : kstate) : list icl_module :=
  match sc k with Some s => sc_modules s | None => [] end.

(** The module is loaded, nobody holds the lock and the queue is [q]. *)
Definition loaded (q : list icl_module) (k : kstate) : Prop :=
  sc k = Some {| sc_lock := sx_unlocked; sc_modules := q |}.

(** The state an entry point leaves behind: the module loaded, the lock
    released, the queue [q], the log [l], [n] live allocations and the
    drivers in state [w]. *)
Definition settled (q : list icl_module) (l : list event) (n : nat) (w : W)
  : kstate :=
  {| sc := Some {| sc_lock := sx_unlocked; sc_modules := q |};
     klog := l; m_icl := n; drivers := w |}.

(** The softc with the lock held by the caller: shared for lookups,
    exclusive for registration. *)
Definition locked (q : list icl_module) (k : kstate) : Prop :=
  ∃ l, l ≠ sx_unlocked ∧ sc k = Some {| sc_lock := l; sc_modules := q |}.

(** No two elements of the queue have names that compare equal. *)
Definition unique_names (q : list icl_module) : Prop :=
  ∀ i j a b, q !! i = Some a → q !! j = Some b →
    strcasecmp (im_name a) (im_name b) = 0 → i = j.

(** [name] matches no element of the queue. *)
Definition unmatched (name : string) (q : list icl_module) : Prop :=
  ∀ im, im ∈ q → strcasecmp (im_name im) name ≠ 0.

(** The entry points as transitions, labelled with what the counting
    arguments need: the status of a registration or of a removal. *)
Inductive label : Type :=
  | l_register (error : Z)
  | l_unregister (error : Z)
  | l_other.

Inductive icl_step : kstate → label → kstate → Prop :=
  | step_register offload priority limits new_conn error k k' :
      icl_register offload priority limits new_conn k = Done error k' →
      icl_step k (l_register error) k'
  | step_unregister offload error k k' :
      icl_unregister offload k = Done error k' →
      icl_step k (l_unregister error) k'
  | step_new_conn offload name lock ic k k' :
      icl_new_conn offload name lock k = Done ic k' →
      icl_step k l_other k'
  | step_limits offload p error k k' :
      icl_limits offload p k = Done error k' →
      icl_step k l_other k'
  | step_drivers (sysctl_req : Type) sysctl_out (req : sysctl_req) r k k' :
      sysctl_kern_icl_drivers sysctl_out req k = Done r k' →
      icl_step k l_other k'.

Inductive icl_run : kstate → list label → kstate → Prop :=
  | run_nil k : icl_run k [] k
  | run_cons k l k' ls k'' :
      icl_step k l k' → icl_run k' ls k'' → icl_run k (l :: ls) k''.

Definition registered (l : label) : bool :=
  match l with l_register 0 => true | _ => false end.
Definition unregistered (l : label) : bool :=
  match l with l_unregister 0 => true | _ => false end.

(** How many labels of a run satisfy [f]. *)
Fixpoint successes (f : label → bool) (ls : list label) : nat :=
  match ls with
  | [] => 0
  | l :: ls' => ((if f l then 1 else 0) + successes f ls')%nat
  end.

(** What one transition can do to the queue. *)
Inductive queue_step (q : list icl_module) : label → list icl_module → Prop :=
  | queue_insert im :
      unmatched (im_name im) q → queue_step q (l_register 0) (im :: q)
  | queue_remove i :
      (i < length q)%nat → queue_step q (l_unregister 0) (delete i q)
  | queue_keep l :
      registered l = false → unregistered l = false → queue_step q l q.

(** The names of the queue joined by single spaces. *)
Definition join_names (q : list icl_module) : string :=
  String.concat " " (map im_name q).

End Runs.

(** ** Views of a state *)

Section Views.

Context {W conn mtx limitp : Type}.

Abbreviation icl_module := (@icl_module W conn mtx limitp).
Abbreviation kstate := (@kstate W conn mtx limitp).

(** The state of [sc->sc_lock], when there is a softc. *)
Definition lock_of (k : kstate) : option sx := sc_lock <$> sc k.

(** The element at position [i] is the one the priority loop settles on:
    nothing in the queue has a greater priority and everything before it
    has a strictly smaller one. *)
Definition highest_at (q : list icl_module) (i : nat) (im : icl_module) : Prop :=
  q !! i = Some im ∧
  ∀ j x, q !! j = Some x →
    im_priority x ≤ im_priority im ∧
    ((j < i)%nat → im_priority x < im_priority im).

(** The softc with the lock held shared by the caller alone. *)
Definition shared (q : list icl_module) : option (@icl_softc W conn mtx limitp) :=
  Some {| sc_lock := sx_shared 0; sc_modules := q |}.

End Views.

(** ** Sample drivers

    Drivers whose state is the number of connections handed out so far; a
    connection handle, a mutex and a size pointer are numbers. *)

Definition sample_limits (status : Z) : @limits_fn nat nat :=
  λ _ w, (status, w).
Definition sample_new_conn : @new_conn_fn nat nat nat :=
  λ _ _ w, (Some w, S w).
Definition broken_new_conn : @new_conn_fn nat nat nat :=
  λ _ _ w, (None, w).

Definition sample_module (name : string) (priority : Z) : @icl_module nat nat nat nat :=
  {| im_name := name; im_priority := priority;
     im_limits := sample_limits 0; im_new_conn := sample_new_conn |}.

(** The kernel before the module is loaded, and with the module loaded and
    the given queue. *)
Definition cold : @kstate nat nat nat nat :=
  {| sc := None; klog := []; m_icl := 0; drivers := 0%nat |}.
Definition warm (q : list (@icl_module nat nat nat nat)) : @kstate nat nat nat nat :=
  {| sc := Some {| sc_lock := sx_unlocked; sc_modules := q |}; klog := [];
     m_icl := S (2 * length q); drivers := 0%nat |}.

(** The same with the lock held shared by the caller. *)
Definition held (q : list (@icl_module nat nat nat nat)) : @kstate nat nat nat nat :=
  {| sc := Some {| sc_lock := sx_shared 0; sc_modules := q |}; klog := [];
     m_icl := S (2 * length q); drivers := 0%nat |}.

Definition sample_sysctl_out : list string → string → Z * list string :=
  λ req data, (0, req ++ [data]).

(** * Properties *)

(** ** Comparing names *)

Lemma char_code_inj c1 c2 : char_code c1 = char_code c2 → c1 = c2.
Proof.
  unfold char_code. intros H%(inj Z.of_N).
  by rewrite <- (ascii_N_embedding c1), <- (ascii_N_embedding c2), H.
Qed.

Lemma strcasecmp_refl s : strcasecmp s s = 0.
Proof. induction s as [|c s IH]; simpl; [done|]. by rewrite Ascii.eqb_refl. Qed.

Lemma strcasecmp_swap s1 s2 : strcasecmp s2 s1 = - strcasecmp s1 s2.
Proof.
  revert s2. induction s1 as [|c1 r1 IH]; intros [|c2 r2]; simpl; try lia.
  rewrite (Ascii.eqb_sym (tolower c2)).
  destruct (Ascii.eqb (tolower c1) (tolower c2)); [apply IH | lia].
Qed.

Lemma strcasecmp_sym s1 s2 : strcasecmp s1 s2 = 0 → strcasecmp s2 s1 = 0.
Proof. rewrite (strcasecmp_swap s1 s2). lia. Qed.

(** ** Running the code on a loaded module *)

Section Facts.

Context {W conn mtx limitp : Type}.

Abbreviation icl_module := (@icl_module W conn mtx limitp).
Abbreviation kstate := (@kstate W conn mtx limitp).
Abbreviation limits_fn := (@limits_fn W limitp).
Abbreviation new_conn_fn := (@new_conn_fn W conn mtx).

Implicit Types (q pre rest : list icl_module) (k : kstate).
Implicit Types (im imm x y : icl_module).
Implicit Types (offload : option string) (name : string).

Lemma loaded_settled q k :
  loaded q k → k = settled q (klog k) (m_icl k) (drivers k).
Proof. destruct k as [s l n w]. unfold loaded, settled. simpl. by intros ->. Qed.

Lemma settled_with_log q k l :
  loaded q k → settled q l (m_icl k) (drivers k) = with_log l k.
Proof. destruct k as [s l' n w]. unfold loaded. simpl. by intros ->. Qed.

Lemma settled_with_drivers q k l w :
  loaded q k → settled q l (m_icl k) w = with_drivers w (with_log l k).
Proof. destruct k as [s l' n w']. unfold loaded. simpl. by intros ->. Qed.

Lemma settled_loaded q l n w : loaded q (settled q l n w).
Proof. done. Qed.

Lemma registry_settled q l n w : registry (settled q l n w) = q.
Proof. done. Qed.

Lemma loaded_registry q k : loaded q k → registry k = q.
Proof. unfold loaded, registry. by intros ->. Qed.

Lemma icl_find_run offload q k :
  locked q k → icl_find offload k = Done (find_in offload q) k.
Proof.
  destruct k as [s l n w]. intros (lk & Hlk & Hs). simpl in Hs. subst s.
  unfold icl_find, bind, sx_assert_locked, modules, softc. simpl.
  by destruct lk.
Qed.

Lemma sx_slock_find_run offload q k :
  loaded q k →
  (sx_slock ;; icl_find offload)%kern k =
    Done (find_in offload q)
      (with_sc (Some {| sc_lock := sx_shared 0; sc_modules := q |}) k).
Proof. by intros ->%loaded_settled. Qed.

Lemma icl_new_conn_run offload name lock q k :
  loaded q k →
  icl_new_conn offload name lock k =
    match find_in offload q with
    | None =>
        Done None
          (settled q (klog k ++ [ev_warn msg_not_found offload])
             (m_icl k) (drivers k))
    | Some (_, im) =>
        let r := im_new_conn im name lock (drivers k) in
        Done r.1
          (settled q (klog k ++ [ev_new_conn (im_new_conn im) name lock])
             (m_icl k) r.2)
    end.
Proof.
  intros ->%loaded_settled.
  unfold icl_new_conn, bind, sx_slock, icl_find, sx_assert_locked, modules,
    softc. simpl.
  by destruct (find_in offload q) as [[i im]|].
Qed.

Lemma icl_limits_run offload p q k :
  loaded q k →
  icl_limits offload p k =
    match find_in offload q with
    | None =>
        Done ENXIO
          (settled q (klog k ++ [ev_warn msg_not_found offload])
             (m_icl k) (drivers k))
    | Some (_, im) =>
        let r := im_limits im p (drivers k) in
        Done r.1
          (settled q (klog k ++ [ev_limits (im_limits im) p]) (m_icl k) r.2)
    end.
Proof.
  intros ->%loaded_settled.
  unfold icl_limits, bind, sx_slock, icl_find, sx_assert_locked, modules,
    softc. simpl.
  by destruct (find_in offload q) as [[i im]|].
Qed.

Lemma icl_register_run offload priority limits new_conn q k :
  loaded q k →
  icl_register offload priority limits new_conn k =
    match find_in offload q, offload with
    | Some _, _ =>
        Done EBUSY
          (settled q (klog k ++ [ev_warn msg_already_registered offload])
             (m_icl k) (drivers k))
    | None, None => Fail page_fault
    | None, Some name =>
        Done 0
          (settled
             ({| im_name := name; im_priority := priority;
                 im_limits := limits; im_new_conn := new_conn |} :: q)
             (klog k ++ [ev_debug msg_registered offload])
             (S (S (m_icl k))) (drivers k))
    end.
Proof.
  intros ->%loaded_settled.
  unfold icl_register, bind, sx_xlock, icl_find, sx_assert_locked, modules,
    softc. simpl.
  destruct (find_in offload q) as [[i im]|]; [done|].
  by destruct offload.
Qed.

Lemma icl_unregister_run offload q k :
  loaded q k →
  icl_unregister offload k =
    match find_in offload q with
    | None =>
        Done ENXIO
          (settled q (klog k ++ [ev_warn msg_not_registered offload])
             (m_icl k) (drivers k))
    | Some (i, _) =>
        Done 0
          (settled (delete i q)
             (klog k ++ [ev_debug msg_unregistered offload])
             (pred (pred (m_icl k))) (drivers k))
    end.
Proof.
  intros ->%loaded_settled.
  unfold icl_unregister, bind, sx_xlock, icl_find, sx_assert_locked, modules,
    softc. simpl.
  by destruct (find_in offload q) as [[i im]|].
Qed.

(** ** The two loops of [icl_find] *)

Lemma scan_priority_spec pre rest m imm :
  (pre ++ rest) !! m = Some imm →
  (m ≤ length pre)%nat →
  (∀ j x, (j < length pre)%nat → (pre ++ rest) !! j = Some x →
     im_priority x ≤ im_priority imm ∧
     ((j < m)%nat → im_priority x < im_priority imm)) →
  let r := scan_priority (length pre) rest (m, imm) in
  (pre ++ rest) !! r.1 = Some r.2 ∧
  ∀ j x, (pre ++ rest) !! j = Some x →
    im_priority x ≤ im_priority r.2 ∧
    ((j < r.1)%nat → im_priority x < im_priority r.2).
Proof.
  revert pre m imm. induction rest as [|im rest IH]; intros pre m imm Hm Hle Hinv.
  - simpl. split; [done|]. intros j x Hj. apply Hinv; [|done].
    apply lookup_lt_Some in Hj. by rewrite app_nil_r in Hj.
  - simpl scan_priority.
    assert (Hq : pre ++ im :: rest = (pre ++ [im]) ++ rest)
      by by rewrite <- app_assoc.
    assert (Hlen : S (length pre) = length (pre ++ [im]))
      by (rewrite length_app; simpl; lia).
    assert (Him : (pre ++ im :: rest) !! length pre = Some im)
      by by rewrite list_lookup_middle.
    rewrite Hq in *. rewrite Hlen. clear Hq.
    destruct (Z.gtb_spec (im_priority im) (im_priority imm)) as [Hgt|Hngt];
      simpl; apply IH; try done; try lia.
    + intros j x Hj Hx. rewrite <- Hlen in Hj.
      destruct (decide (j = length pre)) as [->|Hne].
      * rewrite Him in Hx. injection Hx as ->. split; lia.
      * destruct (Hinv j x) as [H1 _]; [lia|done|]. split; lia.
    + intros j x Hj Hx. rewrite <- Hlen in Hj.
      destruct (decide (j = length pre)) as [->|Hne].
      * rewrite Him in Hx. injection Hx as ->. split; lia.
      * apply Hinv; [lia|done].
Qed.

Lemma find_highest_spec q :
  q ≠ [] →
  ∃ i im, find_highest q = Some (i, im) ∧ q !! i = Some im ∧
    ∀ j x, q !! j = Some x →
      im_priority x ≤ im_priority im ∧
      ((j < i)%nat → im_priority x < im_priority im).
Proof.
  destruct q as [|first q]; [done|]. intros _. unfold find_highest.
  pose proof (scan_priority_spec [] (first :: q) 0 first) as H.
  change ([] ++ first :: q) with (first :: q) in H.
  change (length []) with 0%nat in H.
  destruct (scan_priority 0 (first :: q) (0%nat, first)) as [i im].
  exists i, im. split; [done|]. apply H; [done|done|]. intros j x Hj. lia.
Qed.

Lemma find_highest_head im q :
  (∀ x, x ∈ q → im_priority x ≤ im_priority im) →
  find_highest (im :: q) = Some (0%nat, im).
Proof.
  intros Hle.
  destruct (find_highest_spec (im :: q)) as (i & y & -> & Hi & Hmax); [done|].
  destruct i as [|i]; [by injection Hi as ->|].
  destruct (Hmax 0%nat im) as [_ Hlt]; [done|].
  assert (im_priority y ≤ im_priority im); [|lia].
  apply Hle. by apply list_elem_of_lookup_2 with i.
Qed.

Lemma find_in_unspecified offload q :
  name_unspecified offload = true → find_in offload q = find_highest q.
Proof. by destruct offload as [[|c r]|]. Qed.

Lemma find_in_named name q :
  name ≠ "" → find_in (Some name) q = find_named name q.
Proof. by destruct name. Qed.

Lemma find_named_None name q : find_named name q = None ↔ unmatched name q.
Proof.
  unfold find_named, unmatched. rewrite list_find_None, Forall_forall. done.
Qed.

Lemma find_named_Some name q i im :
  find_named name q = Some (i, im) ↔
  q !! i = Some im ∧ strcasecmp (im_name im) name = 0 ∧
  ∀ j y, q !! j = Some y → (j < i)%nat → strcasecmp (im_name y) name ≠ 0.
Proof. unfold find_named. by rewrite list_find_Some. Qed.

(** The position found by name depends on the names in the queue only. *)
Lemma find_named_names name q q' :
  im_name <$> q = im_name <$> q' →
  fst <$> find_named name q = fst <$> find_named name q'.
Proof.
  unfold find_named. revert q'.
  induction q as [|a q IH]; intros [|b q'] Hn; try done.
  simpl in Hn. injection Hn as Hab Hn. simpl. rewrite Hab.
  case_decide; [done|].
  specialize (IH q' Hn).
  destruct (list_find _ q) as [[i x]|], (list_find _ q') as [[j y]|];
    simpl in *; congruence.
Qed.

(** ** The sysctl handler, load and unload *)

Lemma append_assoc (a b c : string) : (a +:+ b) +:+ c = a +:+ (b +:+ c).
Proof.
  induction a as [|ch a IH]; [done|].
  change (String ch ((a +:+ b) +:+ c) = String ch (a +:+ (b +:+ c))).
  by rewrite IH.
Qed.

Lemma print_drivers_rest i q sb :
  q ≠ [] → print_drivers (S i) q sb = sb +:+ " " +:+ join_names q.
Proof.
  revert i sb. induction q as [|a q IH]; intros i sb Hq; [done|].
  destruct q as [|b q].
  - simpl. apply append_assoc.
  - change (print_drivers (S i) (a :: b :: q) sb)
      with (print_drivers (S (S i)) (b :: q) ((sb +:+ " ") +:+ im_name a)).
    rewrite IH by done.
    change (join_names (a :: b :: q))
      with (im_name a +:+ " " +:+ join_names (b :: q)).
    by rewrite !append_assoc.
Qed.

Lemma print_drivers_all q : print_drivers 0 q "" = join_names q.
Proof.
  destruct q as [|a [|b q]]; [done|done|].
  change (print_drivers 0 (a :: b :: q) "")
    with (print_drivers 1 (b :: q) (im_name a)).
  by rewrite print_drivers_rest.
Qed.

Lemma sysctl_kern_icl_drivers_run {sysctl_req : Type}
    (sysctl_out : sysctl_req → string → Z * sysctl_req) req q k :
  loaded q k →
  sysctl_kern_icl_drivers sysctl_out req k =
    Done (sysctl_out req (join_names q)) k.
Proof.
  intros Hk. rewrite (loaded_settled q k Hk).
  unfold sysctl_kern_icl_drivers, bind, sx_slock, modules, softc.
  cbn -[print_drivers join_names]. by rewrite print_drivers_all.
Qed.

Lemma icl_load_run k :
  icl_load k = Done 0 (settled [] (klog k) (S (m_icl k)) (drivers k)).
Proof. done. Qed.

Lemma icl_unload_run q k :
  loaded q k →
  icl_unload k =
    match q with
    | [] => Done 0 (with_m_icl (pred (m_icl k)) (with_sc None k))
    | _ :: _ => Fail (kassert "still have modules")
    end.
Proof. intros ->%loaded_settled. by destruct q. Qed.

(** ** Transitions *)

Lemma find_in_lookup offload q i im :
  find_in offload q = Some (i, im) → q !! i = Some im.
Proof.
  destruct (decide (name_unspecified offload = true)) as [Hu|Hu].
  - rewrite (find_in_unspecified _ _ Hu). intros Hf.
    destruct q as [|a q]; [done|].
    destruct (find_highest_spec (a :: q)) as (i' & im' & Hf' & Hi & _);
      [done|].
    congruence.
  - destruct offload as [[|c r]|]; try done.
    simpl. by intros (? & _)%find_named_Some.
Qed.

Lemma find_in_None_unmatched name q :
  find_in (Some name) q = None → unmatched name q.
Proof.
  destruct name as [|c r].
  - destruct q as [|a q]; [|done]. by intros _ im ?%elem_of_nil.
  - apply find_named_None.
Qed.

Lemma icl_step_queue q k l k' :
  loaded q k → icl_step k l k' → ∃ q', loaded q' k' ∧ queue_step q l q'.
Proof.
  intros Hk Hstep. destruct Hstep as
    [offload priority limits new_conn error k k' H
    |offload error k k' H
    |offload name lock ic k k' H
    |offload p error k k' H
    |sysctl_req sysctl_out req r k k' H].
  - rewrite (icl_register_run _ _ _ _ q k Hk) in H.
    destruct (find_in offload q) as [r|] eqn:Hf.
    + injection H as <- <-. exists q. split; [done|]. by apply queue_keep.
    + destruct offload as [name|]; [|done]. injection H as <- <-.
      eexists. split; [done|].
      apply (queue_insert q {| im_name := name |}).
      by apply find_in_None_unmatched.
  - rewrite (icl_unregister_run _ q k Hk) in H.
    destruct (find_in offload q) as [[i im]|] eqn:Hf.
    + injection H as <- <-. eexists. split; [done|].
      apply queue_remove. apply find_in_lookup in Hf.
      by apply lookup_lt_Some in Hf.
    + injection H as <- <-. exists q. split; [done|]. by apply queue_keep.
  - rewrite (icl_new_conn_run _ _ _ q k Hk) in H.
    exists q. split; [|by apply queue_keep].
    destruct (find_in offload q) as [[i im]|]; by injection H as <- <-.
  - rewrite (icl_limits_run _ _ q k Hk) in H.
    exists q. split; [|by apply queue_keep].
    destruct (find_in offload q) as [[i im]|]; by injection H as <- <-.
  - rewrite (sysctl_kern_icl_drivers_run _ _ q k Hk) in H.
    injection H as <- <-. exists q. split; [done|]. by apply queue_keep.
Qed.

Lemma queue_step_unique q l q' :
  queue_step q l q' → unique_names q → unique_names q'.
Proof.
  intros [im Hun|i Hi|l' _ _] Huniq; [| |done].
  - intros [|i] [|j] a b Ha Hb Hab; simpl in *; [done| | |].
    + injection Ha as <-. exfalso.
      apply (Hun b); [by apply list_elem_of_lookup_2 with j|].
      by apply strcasecmp_sym.
    + injection Hb as <-. exfalso.
      by apply (Hun a); [apply list_elem_of_lookup_2 with i|].
    + f_equal. by apply (Huniq i j a b).
  - intros j1 j2 a b. rewrite !list_lookup_delete.
    intros Ha Hb Hab.
    repeat case_decide;
      match type of Ha with
      | q !! ?n1 = _ =>
          match type of Hb with
          | q !! ?n2 = _ => specialize (Huniq n1 n2 a b Ha Hb Hab); lia
          end
      end.
Qed.

Lemma queue_step_length q l q' :
  queue_step q l q' →
  (length q' + (if unregistered l then 1 else 0) =
   length q + (if registered l then 1 else 0))%nat.
Proof.
  intros [im _|i Hi|l' H1 H2]; simpl.
  - lia.
  - rewrite length_delete; [lia|]. by apply lookup_lt_is_Some.
  - rewrite H1, H2. lia.
Qed.

Lemma icl_run_queue q k ls k' :
  loaded q k → icl_run k ls k' →
  ∃ q', loaded q' k' ∧
    (unique_names q → unique_names q') ∧
    (length q' + successes unregistered ls =
     length q + successes registered ls)%nat.
Proof.
  intros Hk Hrun. revert q Hk.
  induction Hrun as [k|k l k' ls k'' Hstep Hrun IH]; intros q Hk.
  - exists q. split_and!; [done|done|simpl; lia].
  - destruct (icl_step_queue q k l k' Hk Hstep) as (q1 & Hk1 & Hq).
    destruct (IH q1 Hk1) as (q2 & Hk2 & Huniq & Hlen).
    exists q2. split_and!; [done| |].
    + intros Hu. by apply Huniq, (queue_step_unique q l q1).
    + apply queue_step_length in Hq. simpl. lia.
Qed.

End Facts.

(** * The registry's contract *)

Section Contract.

Context {W conn mtx limitp : Type}.

Abbreviation icl_module := (@icl_module W conn mtx limitp).
Abbreviation kstate := (@kstate W conn mtx limitp).
Abbreviation limits_fn := (@limits_fn W limitp).
Abbreviation new_conn_fn := (@new_conn_fn W conn mtx).

Implicit Types (q : list icl_module) (k : kstate).
Implicit Types (im x y : icl_module).
Implicit Types (offload : option string) (name : string).

(** ** Lookup *)

(** C1. Looking up an absent or empty name under the lock leaves the state
    alone and finds nothing in an empty queue; in a non-empty queue it finds
    an element of greatest priority, namely the first such element in queue
    order: every element before it has a strictly smaller priority.  The
    head of the queue is therefore found whenever no other element has a
    greater priority, and the head is the module registered last: right
    after a successful registration the lookup, as [icl_new_conn] and
    [icl_limits] run it, finds the new record unless an older one has a
    strictly greater priority. *)
Theorem icl_find_highest_priority offload q k :
  name_unspecified offload = true →
  locked q k →
  ∃ r, icl_find offload k = Done r k ∧
    (q = [] → r = None) ∧
    (q ≠ [] →
       ∃ i im, r = Some (i, im) ∧ q !! i = Some im ∧
         (∀ j x, q !! j = Some x → im_priority x ≤ im_priority im) ∧
         (∀ j x, q !! j = Some x → (j < i)%nat →
            im_priority x < im_priority im)) ∧
    (∀ im q', q = im :: q' →
       (∀ x, x ∈ q' → im_priority x ≤ im_priority im) →
       r = Some (0%nat, im)) ∧
    (∀ q0 k0 name priority limits new_conn k1,
       loaded q0 k0 →
       icl_register (Some name) priority limits new_conn k0 = Done 0 k1 →
       (∀ x, x ∈ q0 → im_priority x ≤ priority) →
       ∃ k2, (sx_slock ;; icl_find offload)%kern k1 =
         Done (Some (0%nat, {| im_name := name; im_priority := priority;
                               im_limits := limits; im_new_conn := new_conn |}))
           k2).
Proof.
  intros Hname Hk. exists (find_in offload q).
  rewrite (icl_find_run offload q k Hk), (find_in_unspecified _ _ Hname).
  split_and!; [done| by intros ->| | |].
  - intros Hq. destruct (find_highest_spec q Hq) as (i & im & Hf & Hi & Hmax).
    exists i, im. split_and!; [done|done| |]; intros j x Hx.
    + by apply (Hmax j x).
    + by apply (Hmax j x).
  - intros im q' -> Hle. by apply find_highest_head.
  - intros q0 k0 name priority limits new_conn k1 Hk0 Hreg Hle.
    rewrite (icl_register_run _ _ _ _ q0 k0 Hk0) in Hreg.
    destruct (find_in (Some name) q0); [by injection Hreg|].
    injection Hreg as <-. eexists.
    rewrite (sx_slock_find_run _ _ _ (settled_loaded _ _ _ _)).
    rewrite (find_in_unspecified _ _ Hname), find_highest_head; done.
Qed.

(** C3. Looking up a non-empty name under the lock leaves the state alone
    and finds the first element, in queue order, whose name compares equal
    ignoring case; it finds nothing exactly when no name compares equal.
    Priorities play no part: the position found is the same in any queue
    holding the same names in the same order. *)
Theorem icl_find_by_name name q k :
  name ≠ "" →
  locked q k →
  ∃ r, icl_find (Some name) k = Done r k ∧
    (r = None ↔ unmatched name q) ∧
    (∀ i im, r = Some (i, im) ↔
       q !! i = Some im ∧ strcasecmp (im_name im) name = 0 ∧
       ∀ j y, q !! j = Some y → (j < i)%nat →
         strcasecmp (im_name y) name ≠ 0) ∧
    (∀ q' k', locked q' k' → im_name <$> q' = im_name <$> q →
       ∃ r', icl_find (Some name) k' = Done r' k' ∧ fst <$> r' = fst <$> r).
Proof.
  intros Hname Hk. exists (find_in (Some name) q).
  rewrite (icl_find_run _ q k Hk), (find_in_named _ _ Hname).
  split_and!; [done| apply find_named_None | apply find_named_Some |].
  intros q' k' Hk' Hnames. exists (find_in (Some name) q').
  rewrite (icl_find_run _ q' k' Hk'), (find_in_named _ _ Hname).
  split; [done|]. by apply find_named_names.
Qed.

(** ** Registration *)

(** C2. Registering a name that compares equal, ignoring case, to the name
    of some element of the queue fails with EBUSY and changes nothing but
    the log, which gains a warning.  Registering a non-empty name that
    compares equal to no element's name succeeds: a record with that name
    and the given priority and callbacks becomes the head of the queue,
    the rest of the queue is as before, and the record and its name are
    two new allocations. *)
Theorem icl_register_contract name priority limits new_conn q k :
  loaded q k →
  ((∃ im, im ∈ q ∧ strcasecmp (im_name im) name = 0) →
     icl_register (Some name) priority limits new_conn k =
       Done EBUSY
         (with_log (klog k ++ [ev_warn msg_already_registered (Some name)]) k)) ∧
  (name ≠ "" → unmatched name q →
     icl_register (Some name) priority limits new_conn k =
       Done 0
         (settled
            ({| im_name := name; im_priority := priority;
                im_limits := limits; im_new_conn := new_conn |} :: q)
            (klog k ++ [ev_debug msg_registered (Some name)])
            (S (S (m_icl k))) (drivers k))).
Proof.
  intros Hk. rewrite (icl_register_run _ _ _ _ q k Hk). split.
  - intros (im & Him & Heq).
    destruct (find_in (Some name) q) as [r|] eqn:Hf;
      [by rewrite (settled_with_log q k)|].
    exfalso. destruct name as [|c s].
    + destruct q; [by apply elem_of_nil in Him | done].
    + apply find_named_None in Hf. by apply (Hf im).
  - intros Hname Hun. rewrite (find_in_named _ _ Hname).
    by apply find_named_None in Hun as ->.
Qed.

(** C10. Registration does not check that the name is non-empty.  With an
    empty name the lookup that guards against duplicates picks by priority
    instead, so on a non-empty queue it always finds a record, whatever
    the names in the queue: registration fails with EBUSY and changes
    nothing but the log.  On an empty queue it succeeds and the queue
    becomes a single record whose name is the empty string. *)
Theorem icl_register_empty_name priority limits new_conn q k :
  loaded q k →
  (q ≠ [] →
     icl_register (Some "") priority limits new_conn k =
       Done EBUSY
         (with_log (klog k ++ [ev_warn msg_already_registered (Some "")]) k)) ∧
  (q = [] →
     icl_register (Some "") priority limits new_conn k =
       Done 0
         (settled
            [{| im_name := ""; im_priority := priority;
                im_limits := limits; im_new_conn := new_conn |}]
            (klog k ++ [ev_debug msg_registered (Some "")])
            (S (S (m_icl k))) (drivers k))).
Proof.
  intros Hk. rewrite (icl_register_run _ _ _ _ q k Hk). split.
  - intros Hq. destruct (find_highest_spec q Hq) as (i & im & Hf & _).
    simpl find_in. rewrite Hf. by rewrite (settled_with_log q k).
  - by intros ->.
Qed.

(** ** Removal *)

(** C6. Unregistering a non-empty name that compares equal to no element's
    name fails with ENXIO and changes nothing but the log, which gains a
    warning.  Unregistering a non-empty name whose first match is the
    element at position [i] succeeds and removes that element and no
    other: the elements before it keep their positions, those after it
    move up by one, each unchanged, and the two allocations of the record
    are released. *)
Theorem icl_unregister_contract name q k :
  name ≠ "" →
  loaded q k →
  (unmatched name q →
     icl_unregister (Some name) k =
       Done ENXIO
         (with_log (klog k ++ [ev_warn msg_not_registered (Some name)]) k)) ∧
  (∀ i im,
     q !! i = Some im → strcasecmp (im_name im) name = 0 →
     (∀ j y, q !! j = Some y → (j < i)%nat →
        strcasecmp (im_name y) name ≠ 0) →
     icl_unregister (Some name) k =
       Done 0
         (settled (delete i q)
            (klog k ++ [ev_debug msg_unregistered (Some name)])
            (m_icl k - 2) (drivers k)) ∧
     length (delete i q) = pred (length q) ∧
     (∀ j, (j < i)%nat → delete i q !! j = q !! j) ∧
     (∀ j, (i ≤ j)%nat → delete i q !! j = q !! S j)).
Proof.
  intros Hname Hk.
  rewrite (icl_unregister_run _ q k Hk), (find_in_named _ _ Hname). split.
  - intros ->%find_named_None. by rewrite (settled_with_log q k).
  - intros i im Hi Heq Hfirst.
    assert (Hf : find_named name q = Some (i, im))
      by by apply find_named_Some.
    rewrite Hf. split_and!.
    + do 2 f_equal. lia.
    + rewrite length_delete; [lia|]. by exists im.
    + intros j Hj. by apply list_lookup_delete_lt.
    + intros j Hj. by apply list_lookup_delete_ge.
Qed.

(** ** Calls through a resolved module *)

(** C4. [icl_new_conn] on a loaded module.  When the lookup of the offload
    name finds nothing it returns NULL; the log gains the warning and
    nothing else, so no factory has run, and the drivers are as before.
    When the lookup finds the module [im] it returns what one call of
    [im]'s factory on the caller's name and lock returns, NULL included;
    the log gains exactly that one call and the drivers are as that call
    leaves them.  In both cases the queue and the lock are as before. *)
Theorem icl_new_conn_contract offload name lock q k :
  loaded q k →
  (find_in offload q = None →
     icl_new_conn offload name lock k =
       Done None (with_log (klog k ++ [ev_warn msg_not_found offload]) k)) ∧
  (∀ i im, find_in offload q = Some (i, im) →
     icl_new_conn offload name lock k =
       Done (im_new_conn im name lock (drivers k)).1
         (with_drivers (im_new_conn im name lock (drivers k)).2
            (with_log (klog k ++ [ev_new_conn (im_new_conn im) name lock]) k))).
Proof.
  intros Hk. rewrite (icl_new_conn_run _ _ _ q k Hk). split.
  - intros ->. by rewrite (settled_with_log q k).
  - intros i im ->. simpl. by rewrite (settled_with_drivers q k).
Qed.

(** C5. [icl_limits] on a loaded module.  When the lookup of the offload
    name finds nothing it returns ENXIO; the log gains the warning and
    nothing else, so no callback has run.  When the lookup finds the
    module [im] it returns the status of one call of [im]'s limits
    callback on the caller's pointer; the log gains exactly that call and
    the drivers are as that call leaves them. *)
Theorem icl_limits_contract offload (p : limitp) q k :
  loaded q k →
  (find_in offload q = None →
     icl_limits offload p k =
       Done ENXIO (with_log (klog k ++ [ev_warn msg_not_found offload]) k)) ∧
  (∀ i im, find_in offload q = Some (i, im) →
     icl_limits offload p k =
       Done (im_limits im p (drivers k)).1
         (with_drivers (im_limits im p (drivers k)).2
            (with_log (klog k ++ [ev_limits (im_limits im) p]) k))).
Proof.
  intros Hk. rewrite (icl_limits_run _ _ q k Hk). split.
  - intros ->. by rewrite (settled_with_log q k).
  - intros i im ->. simpl. by rewrite (settled_with_drivers q k).
Qed.

(** ** Listing *)

(** C7. The sysctl handler on a loaded module hands to the request the
    names of the queue in queue order, joined by single spaces with
    nothing before the first or after the last, and leaves the state as
    it was.  For an empty queue that is the empty string; after
    registering A, B and C in that order into an empty queue it is
    "C B A". *)
Theorem sysctl_kern_icl_drivers_contract {sysctl_req : Type}
    (sysctl_out : sysctl_req → string → Z * sysctl_req) req q k :
  loaded q k →
  sysctl_kern_icl_drivers sysctl_out req k =
    Done (sysctl_out req (join_names q)) k ∧
  (q = [] → join_names q = "") ∧
  (q = [] → ∀ pa la na pb lb nb pc lc nc, ∃ k3,
     (icl_register (Some "A") pa la na ;;
      icl_register (Some "B") pb lb nb ;;
      icl_register (Some "C") pc lc nc)%kern k = Done 0 k3 ∧
     sysctl_kern_icl_drivers sysctl_out req k3 =
       Done (sysctl_out req "C B A") k3).
Proof.
  intros Hk. split_and!.
  - by apply sysctl_kern_icl_drivers_run.
  - by intros ->.
  - intros -> pa la na pb lb nb pc lc nc.
    rewrite (loaded_settled [] k Hk).
    set (mk name p (l : limits_fn) (n : new_conn_fn) :=
           {| im_name := name; im_priority := p;
              im_limits := l; im_new_conn := n |}).
    exists (settled [mk "C" pc lc nc; mk "B" pb lb nb; mk "A" pa la na]
              (((klog k ++ [ev_debug msg_registered (Some "A")]) ++
                  [ev_debug msg_registered (Some "B")]) ++
                 [ev_debug msg_registered (Some "C")])
              (S (S (S (S (S (S (m_icl k))))))) (drivers k)).
    split; [reflexivity|].
    by rewrite (sysctl_kern_icl_drivers_run _ _ _ _ (settled_loaded _ _ _ _)).
Qed.

(** ** Invariants of a run *)

(** C8. Starting from a loaded module with an empty queue, after any run
    of the entry points (registrations and removals, and the lookups and
    listings between them) no two elements of the queue have names that
    compare equal ignoring case. *)
Theorem unique_names_reachable k0 ls k :
  loaded [] k0 → icl_run k0 ls k → unique_names (registry k).
Proof.
  intros Hk0 Hrun.
  destruct (icl_run_queue [] k0 ls k Hk0 Hrun) as (q & Hk & Huniq & _).
  rewrite (loaded_registry q k Hk). apply Huniq.
  by intros i j a b ?.
Qed.

(** C9. Unloading checks that the queue is empty.  After a run from a
    loaded module with an empty queue in which as many removals succeeded
    as registrations did, unloading passes the check, returns 0 and
    releases the softc.  With any element left in the queue, unloading
    ends in the failed assertion and returns nothing. *)
Theorem icl_unload_contract k0 ls k :
  loaded [] k0 →
  icl_run k0 ls k →
  (successes registered ls = successes unregistered ls →
     icl_unload k = Done 0 (with_m_icl (pred (m_icl k)) (with_sc None k))) ∧
  (registry k ≠ [] → icl_unload k = Fail (kassert "still have modules")) ∧
  (∀ q' k', loaded q' k' → q' ≠ [] →
     icl_unload k' = Fail (kassert "still have modules")).
Proof.
  intros Hk0 Hrun.
  destruct (icl_run_queue [] k0 ls k Hk0 Hrun) as (q & Hk & _ & Hlen).
  rewrite (loaded_registry q k Hk), (icl_unload_run q k Hk). split_and!.
  - intros Heq. destruct q; [done|]. simpl in Hlen. lia.
  - by destruct q.
  - intros q' k' Hk' Hq'. rewrite (icl_unload_run q' k' Hk'). by destruct q'.
Qed.

End Contract.

(** * The contract on the sample drivers *)

Lemma icl_find_highest_priority_tie :
  name_unspecified None = true ∧
  locked [sample_module "B" 5; sample_module "A" 5]
    (held [sample_module "B" 5; sample_module "A" 5]) ∧
  icl_find None (held [sample_module "B" 5; sample_module "A" 5]) =
    Done (Some (0%nat, sample_module "B" 5))
      (held [sample_module "B" 5; sample_module "A" 5]) ∧
  ∃ k2,
    (icl_register (Some "A") 5 (sample_limits 0) sample_new_conn ;;
     icl_register (Some "B") 5 (sample_limits 0) sample_new_conn ;;
     sx_slock ;; icl_find None)%kern (warm []) =
      Done (Some (0%nat, sample_module "B" 5)) k2.
Proof.
  assert (H1 : name_unspecified None = true) by reflexivity.
  assert (H2 : locked [sample_module "B" 5; sample_module "A" 5]
                 (held [sample_module "B" 5; sample_module "A" 5])).
  { exists (sx_shared 0). split; [discriminate | reflexivity]. }
  destruct (icl_find_highest_priority None _ _ H1 H2)
    as (r & Hr & _ & _ & Hhead & Hlast).
  split_and!; [exact H1 | exact H2 | |].
  - rewrite Hr. f_equal. apply (Hhead _ [sample_module "A" 5] eq_refl).
    intros x ->%list_elem_of_singleton. simpl. lia.
  - apply (Hlast [sample_module "A" 5]
             (settled [sample_module "A" 5]
                [ev_debug msg_registered (Some "A")] 3 0%nat)
             "B" 5 (sample_limits 0) sample_new_conn);
      [reflexivity | reflexivity |].
    intros x ->%list_elem_of_singleton. simpl. lia.
Defined.

Lemma icl_find_by_name_ignores_priority :
  "a" ≠ "" ∧
  locked [sample_module "B" 5; sample_module "A" 1]
    (held [sample_module "B" 5; sample_module "A" 1]) ∧
  icl_find (Some "a") (held [sample_module "B" 5; sample_module "A" 1]) =
    Done (Some (1%nat, sample_module "A" 1))
      (held [sample_module "B" 5; sample_module "A" 1]).
Proof.
  assert (H1 : "a" ≠ "") by discriminate.
  assert (H2 : locked [sample_module "B" 5; sample_module "A" 1]
                 (held [sample_module "B" 5; sample_module "A" 1])).
  { exists (sx_shared 0). split; [discriminate | reflexivity]. }
  split_and!; [exact H1 | exact H2 |].
  destruct (icl_find_by_name "a" _ _ H1 H2) as (r & -> & _ & Hfirst & _).
  f_equal. apply Hfirst. split_and!; [reflexivity | reflexivity |].
  intros [|[|j]] y Hy Hj; [|lia|lia].
  injection Hy as <-. vm_compute. discriminate.
Defined.

Lemma icl_register_contract_sample :
  loaded [sample_module "A" 5] (warm [sample_module "A" 5]) ∧
  icl_register (Some "a") 9 (sample_limits 0) sample_new_conn
      (warm [sample_module "A" 5]) =
    Done EBUSY
      (with_log [ev_warn msg_already_registered (Some "a")]
         (warm [sample_module "A" 5])) ∧
  icl_register (Some "B") 9 (sample_limits 0) sample_new_conn
      (warm [sample_module "A" 5]) =
    Done 0
      (settled [sample_module "B" 9; sample_module "A" 5]
         [ev_debug msg_registered (Some "B")] 5 0%nat).
Proof.
  assert (H : loaded [sample_module "A" 5] (warm [sample_module "A" 5]))
    by reflexivity.
  split_and!; [exact H | |].
  - apply (icl_register_contract "a" 9 (sample_limits 0) sample_new_conn _ _ H).
    exists (sample_module "A" 5). split; [apply list_elem_of_here | reflexivity].
  - apply (icl_register_contract "B" 9 (sample_limits 0) sample_new_conn _ _ H).
    + discriminate.
    + intros im ->%list_elem_of_singleton. vm_compute. discriminate.
Defined.

(** With an empty name an unmatched registration is refused all the same. *)
Lemma icl_register_empty_name_refused :
  loaded [sample_module "A" 5] (warm [sample_module "A" 5]) ∧
  unmatched "" [sample_module "A" 5] ∧
  icl_register (Some "") 9 (sample_limits 0) sample_new_conn
      (warm [sample_module "A" 5]) =
    Done EBUSY
      (with_log [ev_warn msg_already_registered (Some "")]
         (warm [sample_module "A" 5])) ∧
  EBUSY ≠ 0.
Proof.
  split_and!; [reflexivity | | reflexivity | discriminate].
  intros im ->%list_elem_of_singleton. vm_compute. discriminate.
Qed.

Lemma icl_register_empty_name_sample :
  loaded [sample_module "A" 5] (warm [sample_module "A" 5]) ∧
  loaded [] (warm []) ∧
  icl_register (Some "") 9 (sample_limits 0) sample_new_conn
      (warm [sample_module "A" 5]) =
    Done EBUSY
      (with_log [ev_warn msg_already_registered (Some "")]
         (warm [sample_module "A" 5])) ∧
  icl_register (Some "") 9 (sample_limits 0) sample_new_conn (warm []) =
    Done 0
      (settled [sample_module "" 9] [ev_debug msg_registered (Some "")]
         3 0%nat).
Proof.
  assert (H1 : loaded [sample_module "A" 5] (warm [sample_module "A" 5]))
    by reflexivity.
  assert (H2 : loaded [] (warm [])) by reflexivity.
  split_and!; [exact H1 | exact H2 | |].
  - by apply (icl_register_empty_name 9 (sample_limits 0) sample_new_conn _ _ H1).
  - by apply (icl_register_empty_name 9 (sample_limits 0) sample_new_conn _ _ H2).
Defined.

Lemma icl_unregister_contract_sample :
  "a" ≠ "" ∧
  loaded [sample_module "B" 5; sample_module "A" 1]
    (warm [sample_module "B" 5; sample_module "A" 1]) ∧
  icl_unregister (Some "c") (warm [sample_module "B" 5; sample_module "A" 1]) =
    Done ENXIO
      (with_log [ev_warn msg_not_registered (Some "c")]
         (warm [sample_module "B" 5; sample_module "A" 1])) ∧
  icl_unregister (Some "a") (warm [sample_module "B" 5; sample_module "A" 1]) =
    Done 0
      (settled [sample_module "B" 5] [ev_debug msg_unregistered (Some "a")]
         3 0%nat).
Proof.
  assert (H : loaded [sample_module "B" 5; sample_module "A" 1]
                (warm [sample_module "B" 5; sample_module "A" 1]))
    by reflexivity.
  split_and!; [discriminate | exact H | |].
  - apply (icl_unregister_contract "c" _ _ ltac:(discriminate) H).
    intros im [->|[->|[]%elem_of_nil]%elem_of_cons]%elem_of_cons;
      vm_compute; discriminate.
  - destruct (icl_unregister_contract "a" _ _ ltac:(discriminate) H)
      as [_ Hfound].
    apply (Hfound 1%nat (sample_module "A" 1)); [reflexivity | reflexivity |].
    intros [|[|j]] y Hy Hj; [|lia|lia].
    injection Hy as <-. vm_compute. discriminate.
Defined.

(** With an empty name a removal that matches nothing succeeds all the same,
    and takes out the module of highest priority. *)
Lemma icl_unregister_empty_name_removes :
  loaded [sample_module "A" 5] (warm [sample_module "A" 5]) ∧
  unmatched "" [sample_module "A" 5] ∧
  icl_unregister (Some "") (warm [sample_module "A" 5]) =
    Done 0 (settled [] [ev_debug msg_unregistered (Some "")] 1 0%nat) ∧
  ENXIO ≠ 0.
Proof.
  split_and!; [reflexivity | | reflexivity | discriminate].
  intros im ->%list_elem_of_singleton. vm_compute. discriminate.
Qed.

Lemma icl_new_conn_contract_sample :
  loaded [sample_module "B" 5; sample_module "A" 1]
    (warm [sample_module "B" 5; sample_module "A" 1]) ∧
  icl_new_conn (Some "c") "conn0" 7%nat
      (warm [sample_module "B" 5; sample_module "A" 1]) =
    Done None
      (with_log [ev_warn msg_not_found (Some "c")]
         (warm [sample_module "B" 5; sample_module "A" 1])) ∧
  icl_new_conn (Some "a") "conn0" 7%nat
      (warm [sample_module "B" 5; sample_module "A" 1]) =
    Done (Some 0%nat)
      (settled [sample_module "B" 5; sample_module "A" 1]
         [ev_new_conn sample_new_conn "conn0" 7%nat] 5 1%nat).
Proof.
  assert (H : loaded [sample_module "B" 5; sample_module "A" 1]
                (warm [sample_module "B" 5; sample_module "A" 1]))
    by reflexivity.
  split_and!; [exact H | |].
  - by apply (icl_new_conn_contract (Some "c") "conn0" 7%nat _ _ H).
  - destruct (icl_new_conn_contract (Some "a") "conn0" 7%nat _ _ H)
      as [_ Hfound].
    by apply (Hfound 1%nat (sample_module "A" 1)).
Defined.

Lemma icl_limits_contract_sample :
  loaded [sample_module "B" 5; sample_module "A" 1]
    (warm [sample_module "B" 5; sample_module "A" 1]) ∧
  icl_limits (Some "c") 3%nat
      (warm [sample_module "B" 5; sample_module "A" 1]) =
    Done ENXIO
      (with_log [ev_warn msg_not_found (Some "c")]
         (warm [sample_module "B" 5; sample_module "A" 1])) ∧
  icl_limits None 3%nat
      (warm [sample_module "B" 5; sample_module "A" 1]) =
    Done 0
      (settled [sample_module "B" 5; sample_module "A" 1]
         [ev_limits (sample_limits 0) 3%nat] 5 0%nat).
Proof.
  assert (H : loaded [sample_module "B" 5; sample_module "A" 1]
                (warm [sample_module "B" 5; sample_module "A" 1]))
    by reflexivity.
  split_and!; [exact H | |].
  - by apply (icl_limits_contract (Some "c") 3%nat _ _ H).
  - destruct (icl_limits_contract None 3%nat _ _ H) as [_ Hfound].
    by apply (Hfound 0%nat (sample_module "B" 5)).
Defined.

Lemma sysctl_kern_icl_drivers_sample :
  loaded [sample_module "C" 3; sample_module "B" 5; sample_module "A" 1]
    (warm [sample_module "C" 3; sample_module "B" 5; sample_module "A" 1]) ∧
  sysctl_kern_icl_drivers sample_sysctl_out []
      (warm [sample_module "C" 3; sample_module "B" 5; sample_module "A" 1]) =
    Done (0, ["C B A"])
      (warm [sample_module "C" 3; sample_module "B" 5; sample_module "A" 1]).
Proof.
  assert (H : loaded
                [sample_module "C" 3; sample_module "B" 5; sample_module "A" 1]
                (warm
                   [sample_module "C" 3; sample_module "B" 5;
                    sample_module "A" 1]))
    by reflexivity.
  split; [exact H|].
  by apply (sysctl_kern_icl_drivers_contract sample_sysctl_out [] _ _ H).
Defined.

Lemma unique_names_reachable_sample :
  loaded [] (warm []) ∧
  icl_run (warm [])
    [l_register 0; l_register EBUSY; l_register 0; l_unregister 0]
    (settled [sample_module "A" 5]
       [ev_debug msg_registered (Some "A");
        ev_warn msg_already_registered (Some "a");
        ev_debug msg_registered (Some "B");
        ev_debug msg_unregistered (Some "")] 3 0%nat) ∧
  unique_names
    (registry
       (settled [sample_module "A" 5]
          [ev_debug msg_registered (Some "A");
           ev_warn msg_already_registered (Some "a");
           ev_debug msg_registered (Some "B");
           ev_debug msg_unregistered (Some "")] 3 0%nat)).
Proof.
  assert (H1 : loaded [] (warm [])) by reflexivity.
  assert (H2 : icl_run (warm [])
                 [l_register 0; l_register EBUSY; l_register 0; l_unregister 0]
                 (settled [sample_module "A" 5]
                    [ev_debug msg_registered (Some "A");
                     ev_warn msg_already_registered (Some "a");
                     ev_debug msg_registered (Some "B");
                     ev_debug msg_unregistered (Some "")] 3 0%nat)).
  { apply (run_cons _ _
             (settled [sample_module "A" 5]
                [ev_debug msg_registered (Some "A")] 3 0%nat)).
    { by apply (step_register (Some "A") 5 (sample_limits 0) sample_new_conn). }
    apply (run_cons _ _
             (settled [sample_module "A" 5]
                [ev_debug msg_registered (Some "A");
                 ev_warn msg_already_registered (Some "a")] 3 0%nat)).
    { by apply (step_register (Some "a") 9 (sample_limits 0) sample_new_conn). }
    apply (run_cons _ _
             (settled [sample_module "B" 5; sample_module "A" 5]
                [ev_debug msg_registered (Some "A");
                 ev_warn msg_already_registered (Some "a");
                 ev_debug msg_registered (Some "B")] 5 0%nat)).
    { by apply (step_register (Some "B") 5 (sample_limits 0) sample_new_conn). }
    apply (run_cons _ _
             (settled [sample_module "A" 5]
                [ev_debug msg_registered (Some "A");
                 ev_warn msg_already_registered (Some "a");
                 ev_debug msg_registered (Some "B");
                 ev_debug msg_unregistered (Some "")] 3 0%nat)).
    { by apply (step_unregister (Some "")). }
    apply run_nil. }
  split_and!; [exact H1 | exact H2 |].
  exact (unique_names_reachable _ _ _ H1 H2).
Defined.

Lemma icl_unload_contract_sample :
  loaded [] (warm []) ∧
  icl_run (warm []) [l_register 0; l_unregister 0]
    (settled []
       [ev_debug msg_registered (Some "A");
        ev_debug msg_unregistered (Some "a")] 1 0%nat) ∧
  icl_unload
      (@settled nat nat nat nat []
         [ev_debug msg_registered (Some "A");
          ev_debug msg_unregistered (Some "a")] 1 0%nat) =
    Done 0
      {| sc := None;
         klog := [ev_debug msg_registered (Some "A");
                  ev_debug msg_unregistered (Some "a")];
         m_icl := 0; drivers := 0%nat |} ∧
  icl_unload (warm [sample_module "A" 5]) =
    Fail (kassert "still have modules").
Proof.
  assert (H1 : loaded [] (warm [])) by reflexivity.
  assert (H2 : icl_run (warm []) [l_register 0; l_unregister 0]
                 (settled []
                    [ev_debug msg_registered (Some "A");
                     ev_debug msg_unregistered (Some "a")] 1 0%nat)).
  { apply (run_cons _ _
             (settled [sample_module "A" 5]
                [ev_debug msg_registered (Some "A")] 3 0%nat)).
    { by apply (step_register (Some "A") 5 (sample_limits 0) sample_new_conn). }
    apply (run_cons _ _
             (settled []
                [ev_debug msg_registered (Some "A");
                 ev_debug msg_unregistered (Some "a")] 1 0%nat)).
    { by apply (step_unregister (Some "a")). }
    apply run_nil. }
  destruct (icl_unload_contract _ _ _ H1 H2) as (Hok & _ & Hleft).
  split_and!; [exact H1 | exact H2 | |].
  - by apply Hok.
  - by apply (Hleft [sample_module "A" 5]).
Defined.


(** * Further properties of the code *)

Section Further.

Context {W conn mtx limitp : Type}.

Abbreviation icl_module := (@icl_module W conn mtx limitp).
Abbreviation kstate := (@kstate W conn mtx limitp).
Abbreviation limits_fn := (@limits_fn W limitp).
Abbreviation new_conn_fn := (@new_conn_fn W conn mtx).

Implicit Types (q : list icl_module) (k : kstate).
Implicit Types (im x y : icl_module).
Implicit Types (offload : option string) (name : string).

(** ** The element the priority loop settles on *)

Lemma highest_at_unique q i im i' im' :
  highest_at q i im → highest_at q i' im' → i = i' ∧ im = im'.
Proof.
  intros [Hi Hmax] [Hi' Hmax'].
  assert (i = i') as <-.
  { destruct (Hmax i' im' Hi') as [Hle Hlt].
    destruct (Hmax' i im Hi) as [Hle' Hlt'].
    destruct (decide (i < i')%nat); [specialize (Hlt' ltac:(done)); lia|].
    destruct (decide (i' < i)%nat); [specialize (Hlt ltac:(done)); lia|].
    lia. }
  split; [done|]. congruence.
Qed.

Lemma find_highest_at q i im :
  find_highest q = Some (i, im) ↔ highest_at q i im.
Proof.
  split.
  - intros Hf. destruct q as [|a q]; [done|].
    destruct (find_highest_spec (a :: q)) as (i0 & im0 & Hf0 & Hi0 & Hmax);
      [done|].
    rewrite Hf in Hf0. injection Hf0 as -> ->. by split.
  - intros Hat. assert (Hq : q ≠ []) by (destruct Hat as [Hi _]; by destruct q).
    destruct (find_highest_spec q Hq) as (i0 & im0 & -> & Hi0 & Hmax).
    destruct (highest_at_unique q i im i0 im0 Hat) as [-> ->]; by try split.
Qed.

Lemma find_highest_None q : find_highest q = None ↔ q = [].
Proof. by destruct q. Qed.

Lemma highest_at_cons n q i im :
  highest_at q i im →
  highest_at (n :: q)
    (if decide (im_priority im ≤ im_priority n) then 0%nat else S i)
    (if decide (im_priority im ≤ im_priority n) then n else im).
Proof.
  intros [Hi Hmax]. case_decide as Hp.
  - split; [done|]. intros [|j] x Hx; simpl in Hx.
    + injection Hx as <-. split; lia.
    + destruct (Hmax j x Hx). split; lia.
  - split; [done|]. intros [|j] x Hx; simpl in Hx.
    + injection Hx as <-. split; lia.
    + destruct (Hmax j x Hx) as [Hle Hlt]. split; [done|]. intros ?. apply Hlt. lia.
Qed.

Lemma highest_at_delete q i im j :
  highest_at q i im → j ≠ i →
  highest_at (delete j q) (if decide (j < i)%nat then pred i else i) im.
Proof.
  intros [Hi Hmax] Hne. destruct (decide (j < i)%nat) as [Hlt|Hge].
  - split.
    + rewrite list_lookup_delete_ge by lia.
      by replace (S (pred i)) with i by lia.
    + intros j' x. rewrite list_lookup_delete. intros Hx.
      destruct (Hmax _ x Hx) as [Hle Hbefore]. split; [done|].
      intros Hj'. apply Hbefore. case_decide; lia.
  - split.
    + by rewrite list_lookup_delete_lt by lia.
    + intros j' x. rewrite list_lookup_delete. intros Hx.
      destruct (Hmax _ x Hx) as [Hle Hbefore]. split; [done|].
      intros Hj'. apply Hbefore. case_decide; lia.
Qed.

(** ** What a successful registration leaves behind *)

Lemma icl_register_done name priority limits new_conn q k k1 :
  loaded q k →
  icl_register (Some name) priority limits new_conn k = Done 0 k1 →
  find_in (Some name) q = None ∧
  k1 = settled
         ({| im_name := name; im_priority := priority;
             im_limits := limits; im_new_conn := new_conn |} :: q)
         (klog k ++ [ev_debug msg_registered (Some name)])
         (S (S (m_icl k))) (drivers k).
Proof.
  intros Hk Hreg. rewrite (icl_register_run _ _ _ _ q k Hk) in Hreg.
  destruct (find_in (Some name) q); [by injection Hreg|].
  by injection Hreg as <-.
Qed.

Lemma find_in_head name name' im q :
  strcasecmp (im_name im) name' = 0 → name' ≠ "" →
  find_in (Some name') (im :: q) = Some (0%nat, im).
Proof.
  intros Heq Hne. rewrite (find_in_named _ _ Hne).
  apply find_named_Some. split_and!; [done|done|]. intros j y _ Hj. lia.
Qed.

Lemma find_in_cons_Some offload name' im q :
  offload = Some name' → strcasecmp (im_name im) name' = 0 →
  is_Some (find_in offload (im :: q)).
Proof.
  intros -> Heq. destruct name' as [|c r]; [by eexists|].
  rewrite find_in_head; by try eexists.
Qed.

Lemma sx_slock_find_done offload q k r k' :
  loaded q k → (sx_slock ;; icl_find offload)%kern k = Done r k' →
  r = find_in offload q.
Proof.
  intros Hk. rewrite (sx_slock_find_run _ _ _ Hk). by intros [= <- _].
Qed.

(** ** Allocations along a transition *)

Lemma icl_step_alloc base q k l k' :
  loaded q k → m_icl k = (base + 2 * length q)%nat → icl_step k l k' →
  ∃ q', loaded q' k' ∧ m_icl k' = (base + 2 * length q')%nat.
Proof.
  intros Hk Hm Hstep. destruct Hstep as
    [offload priority limits new_conn error k k' H
    |offload error k k' H
    |offload name lock ic k k' H
    |offload p error k k' H
    |sysctl_req sysctl_out req r k k' H].
  - rewrite (icl_register_run _ _ _ _ q k Hk) in H.
    destruct (find_in offload q) as [r|].
    + injection H as <- <-. by exists q.
    + destruct offload as [name|]; [|done]. injection H as <- <-.
      eexists. split; [done|]. simpl. lia.
  - rewrite (icl_unregister_run _ q k Hk) in H.
    destruct (find_in offload q) as [[i im]|] eqn:Hf.
    + injection H as <- <-. eexists. split; [done|]. simpl.
      apply find_in_lookup, lookup_lt_Some in Hf.
      rewrite length_delete by by apply lookup_lt_is_Some. lia.
    + injection H as <- <-. by exists q.
  - rewrite (icl_new_conn_run _ _ _ q k Hk) in H.
    exists q. destruct (find_in offload q) as [[i im]|]; by injection H as <- <-.
  - rewrite (icl_limits_run _ _ q k Hk) in H.
    exists q. destruct (find_in offload q) as [[i im]|]; by injection H as <- <-.
  - rewrite (sysctl_kern_icl_drivers_run _ _ q k Hk) in H.
    injection H as <- <-. by exists q.
Qed.

Lemma icl_run_alloc base q k ls k' :
  loaded q k → m_icl k = (base + 2 * length q)%nat → icl_run k ls k' →
  ∃ q', loaded q' k' ∧ m_icl k' = (base + 2 * length q')%nat.
Proof.
  intros Hk Hm Hrun. revert q Hk Hm.
  induction Hrun as [k|k l k' ls k'' Hstep Hrun IH]; intros q Hk Hm.
  - by exists q.
  - destruct (icl_step_alloc base q k l k' Hk Hm Hstep) as (q1 & Hk1 & Hm1).
    by apply (IH q1).
Qed.

(** ** Lookup *)



(** ** Locking *)

(** X3. Every entry point that returns has released what it acquired: from
    any state, with the lock free or held shared by others, the lock after
    the call is in the state it was in before. *)
Theorem icl_step_lock k l k' : icl_step k l k' → lock_of k' = lock_of k.
Proof.
  intros Hstep. destruct Hstep as
    [offload priority limits new_conn error k k' H
    |offload error k k' H
    |offload name lock ic k k' H
    |offload p error k k' H
    |sysctl_req sysctl_out req r k k' H];
    destruct k as [[[lk q]|] lg n w]; try done; revert H.
  - unfold icl_register, bind, sx_xlock, icl_find, sx_assert_locked, modules,
      softc. destruct lk; try done. simpl.
    destruct (find_in offload q) as [r|]; [by intros [= _ <-]|].
    destruct offload; [by intros [= _ <-] | done].
  - unfold icl_unregister, bind, sx_xlock, icl_find, sx_assert_locked,
      modules, softc. destruct lk; try done. simpl.
    destruct (find_in offload q) as [[i im]|]; by intros [= _ <-].
  - unfold icl_new_conn, bind, sx_slock, icl_find, sx_assert_locked, modules,
      softc. destruct lk; try done; simpl;
      destruct (find_in offload q) as [[i im]|]; by intros [= _ <-].
  - unfold icl_limits, bind, sx_slock, icl_find, sx_assert_locked, modules,
      softc. destruct lk; try done; simpl;
      destruct (find_in offload q) as [[i im]|]; by intros [= _ <-].
  - unfold sysctl_kern_icl_drivers, bind, sx_slock, modules, softc.
    destruct lk; try done; cbn -[print_drivers]; by intros [= _ <-].
Qed.

(** X4. The lookups never touch the registry: from any state, when
    [icl_new_conn] or [icl_limits] returns, the softc (lock and queue) and
    the number of allocations are as before the call, and when the sysctl
    handler returns the whole state is. *)
Theorem lookups_leave_softc {sysctl_req : Type}
    (sysctl_out : sysctl_req → string → Z * sysctl_req) req
    offload name lock (p : limitp) k :
  (∀ ic k', icl_new_conn offload name lock k = Done ic k' →
     sc k' = sc k ∧ m_icl k' = m_icl k) ∧
  (∀ error k', icl_limits offload p k = Done error k' →
     sc k' = sc k ∧ m_icl k' = m_icl k) ∧
  (∀ r k', sysctl_kern_icl_drivers sysctl_out req k = Done r k' → k' = k).
Proof.
  destruct k as [[[lk q]|] lg n w]; [|by split_and!].
  split_and!.
  - intros ic k'.
    unfold icl_new_conn, bind, sx_slock, icl_find, sx_assert_locked, modules,
      softc. destruct lk; try done; simpl;
      destruct (find_in offload q) as [[i im]|]; by intros [= _ <-].
  - intros error k'.
    unfold icl_limits, bind, sx_slock, icl_find, sx_assert_locked, modules,
      softc. destruct lk; try done; simpl;
      destruct (find_in offload q) as [[i im]|]; by intros [= _ <-].
  - intros r k'.
    unfold sysctl_kern_icl_drivers, bind, sx_slock, modules, softc.
    destruct lk; try done; cbn -[print_drivers]; by intros [= _ <-].
Qed.

(** ** Registration followed by other calls *)

(** X5. Once a registration has succeeded, registering again under a name
    that compares equal to it ignoring case, empty or not, is refused with
    EBUSY whatever the priority and callbacks offered, and changes nothing
    but the log: the first record stays as it is. *)
Theorem icl_register_twice name priority limits new_conn
    name' priority' (limits' : limits_fn) (new_conn' : new_conn_fn) q k k1 :
  loaded q k →
  icl_register (Some name) priority limits new_conn k = Done 0 k1 →
  strcasecmp name name' = 0 →
  icl_register (Some name') priority' limits' new_conn' k1 =
    Done EBUSY
      (with_log (klog k1 ++ [ev_warn msg_already_registered (Some name')]) k1).
Proof.
  intros Hk Hreg Heq.
  destruct (icl_register_done _ _ _ _ q k k1 Hk Hreg) as [_ ->].
  rewrite (icl_register_run _ _ _ _ _ _ (settled_loaded _ _ _ _)).
  destruct (find_in_cons_Some (Some name') name'
              {| im_name := name; im_priority := priority;
                 im_limits := limits; im_new_conn := new_conn |} q eq_refl Heq)
    as [r ->].
  by rewrite (settled_with_log _ _ _ (settled_loaded _ _ _ _)).
Qed.

(** X6. A module that has just been registered is the one a lookup by name
    reaches: asked for a non-empty name that compares equal to the
    registered one ignoring case, [icl_new_conn] calls the factory that was
    registered and [icl_limits] the limits callback that was registered,
    each once and on the caller's arguments, whatever else is in the
    queue. *)
Theorem icl_register_then_lookup name priority limits new_conn
    name' cname lock (p : limitp) q k k1 :
  loaded q k →
  icl_register (Some name) priority limits new_conn k = Done 0 k1 →
  name' ≠ "" →
  strcasecmp name name' = 0 →
  icl_new_conn (Some name') cname lock k1 =
    Done (new_conn cname lock (drivers k1)).1
      (with_drivers (new_conn cname lock (drivers k1)).2
         (with_log (klog k1 ++ [ev_new_conn new_conn cname lock]) k1)) ∧
  icl_limits (Some name') p k1 =
    Done (limits p (drivers k1)).1
      (with_drivers (limits p (drivers k1)).2
         (with_log (klog k1 ++ [ev_limits limits p]) k1)).
Proof.
  intros Hk Hreg Hne Heq.
  destruct (icl_register_done _ _ _ _ q k k1 Hk Hreg) as [_ ->].
  rewrite (icl_new_conn_run _ _ _ _ _ (settled_loaded _ _ _ _)).
  rewrite (icl_limits_run _ _ _ _ (settled_loaded _ _ _ _)).
  rewrite find_in_head by done. by split.
Qed.

(** X7. Registering and then unregistering undoes itself: after a
    successful registration, unregistering under a non-empty name that
    compares equal ignoring case succeeds and leaves the queue, the lock,
    the number of allocations and the drivers exactly as they were before
    the registration; only the log has grown, by the two messages. *)
Theorem icl_register_unregister name priority limits new_conn name' q k k1 :
  loaded q k →
  icl_register (Some name) priority limits new_conn k = Done 0 k1 →
  name' ≠ "" →
  strcasecmp name name' = 0 →
  icl_unregister (Some name') k1 =
    Done 0
      (with_log
         (klog k ++ [ev_debug msg_registered (Some name);
                     ev_debug msg_unregistered (Some name')]) k).
Proof.
  intros Hk Hreg Hne Heq.
  destruct (icl_register_done _ _ _ _ q k k1 Hk Hreg) as [_ ->].
  rewrite (icl_unregister_run _ _ _ (settled_loaded _ _ _ _)).
  rewrite find_in_head by done. simpl.
  rewrite <- app_assoc. simpl. by rewrite (settled_with_log q k).
Qed.

(** ** Removal *)

(** X8. In a queue with no two names equal up to case, a module registered
    under a non-empty name is removed by unregistering that name: the call
    succeeds and deletes that element and no other.  Afterwards the name no
    longer resolves, [icl_limits] answering ENXIO and [icl_new_conn] NULL,
    and it is free to be registered again. *)
Theorem icl_unregister_own_name q k j y :
  loaded q k →
  unique_names q →
  q !! j = Some y →
  im_name y ≠ "" →
  ∃ k1, icl_unregister (Some (im_name y)) k = Done 0 k1 ∧
    loaded (delete j q) k1 ∧
    (∀ p : limitp, ∃ k2, icl_limits (Some (im_name y)) p k1 = Done ENXIO k2) ∧
    (∀ cname (lock : mtx), ∃ k2,
       icl_new_conn (Some (im_name y)) cname lock k1 = Done None k2) ∧
    (∀ priority (limits : limits_fn) (new_conn : new_conn_fn), ∃ k2,
       icl_register (Some (im_name y)) priority limits new_conn k1 = Done 0 k2 ∧
       loaded ({| im_name := im_name y; im_priority := priority;
                  im_limits := limits; im_new_conn := new_conn |}
               :: delete j q) k2).
Proof.
  intros Hk Huniq Hj Hne.
  assert (Hf : find_named (im_name y) q = Some (j, y)).
  { apply find_named_Some. split_and!; [done|apply strcasecmp_refl|].
    intros j' y' Hj' Hlt Heq. specialize (Huniq j' j y' y Hj' Hj Heq). lia. }
  assert (Hun : find_in (Some (im_name y)) (delete j q) = None).
  { rewrite find_in_named by done. apply find_named_None.
    intros x [j' Hx]%list_elem_of_lookup_1 Heq.
    rewrite list_lookup_delete in Hx.
    specialize (Huniq _ j x y Hx Hj Heq). case_decide; lia. }
  rewrite (icl_unregister_run _ q k Hk), find_in_named, Hf by done.
  eexists. split; [done|]. split; [done|]. split_and!.
  - intros p. rewrite (icl_limits_run _ _ _ _ (settled_loaded _ _ _ _)), Hun.
    by eexists.
  - intros cname lock.
    rewrite (icl_new_conn_run _ _ _ _ _ (settled_loaded _ _ _ _)), Hun.
    by eexists.
  - intros priority limits new_conn.
    rewrite (icl_register_run _ _ _ _ _ _ (settled_loaded _ _ _ _)), Hun.
    by eexists.
Qed.

(** X9. Unregistering without a name takes out the module the priority
    loop settles on.  With an absent or empty name [icl_unregister] fails
    with ENXIO only on an empty queue; on any other it succeeds and removes
    the first element of greatest priority, releasing its two
    allocations. *)
Theorem icl_unregister_unspecified offload q k :
  name_unspecified offload = true →
  loaded q k →
  (q = [] →
     icl_unregister offload k =
       Done ENXIO (with_log (klog k ++ [ev_warn msg_not_registered offload]) k)) ∧
  (q ≠ [] →
     ∃ i im, highest_at q i im ∧
       icl_unregister offload k =
         Done 0
           (settled (delete i q)
              (klog k ++ [ev_debug msg_unregistered offload])
              (m_icl k - 2) (drivers k))).
Proof.
  intros Hname Hk.
  rewrite (icl_unregister_run _ q k Hk), (find_in_unspecified _ _ Hname). split.
  - intros ->. simpl. by rewrite (settled_with_log [] k).
  - intros Hq. destruct (find_highest_spec q Hq) as (i & im & Hf & Hi & Hmax).
    exists i, im. split; [by split|]. rewrite Hf. do 2 f_equal. lia.
Qed.

(** ** Automatic selection while the registry changes *)

(** X10. A newly registered module takes over automatic selection exactly
    when its priority is at least that of the module selected so far:
    after a successful registration the lookup without a name finds the new
    record if no older one has a strictly greater priority, and otherwise
    the record it found before, one position further down the queue. *)
Theorem icl_register_takes_over offload name priority limits new_conn
    q k k' k1 i im :
  name_unspecified offload = true →
  loaded q k →
  (sx_slock ;; icl_find offload)%kern k = Done (Some (i, im)) k' →
  icl_register (Some name) priority limits new_conn k = Done 0 k1 →
  ∃ k2, (sx_slock ;; icl_find offload)%kern k1 =
    Done
      (Some
         (if decide (im_priority im ≤ priority)
          then (0%nat, {| im_name := name; im_priority := priority;
                          im_limits := limits; im_new_conn := new_conn |})
          else (S i, im)))
      k2.
Proof.
  intros Hname Hk Hsel Hreg.
  apply (sx_slock_find_done _ q) in Hsel; [|done].
  rewrite (find_in_unspecified _ _ Hname) in Hsel. symmetry in Hsel.
  apply find_highest_at in Hsel.
  destruct (icl_register_done _ _ _ _ q k k1 Hk Hreg) as [_ ->].
  rewrite (sx_slock_find_run _ _ _ (settled_loaded _ _ _ _)).
  rewrite (find_in_unspecified _ _ Hname). eexists. do 2 f_equal.
  apply (highest_at_cons {| im_name := name; im_priority := priority;
                            im_limits := limits; im_new_conn := new_conn |})
    in Hsel.
  simpl in Hsel.
  destruct (decide (im_priority im ≤ priority)); by apply find_highest_at.
Qed.

(** X11. Removing another module does not change automatic selection: if
    the lookup without a name finds [im], and a module whose name does not
    compare equal to [im]'s is unregistered by name, the lookup without a
    name still finds [im]. *)
Theorem icl_unregister_keeps_selection offload name q k k' k1 i im :
  name_unspecified offload = true →
  loaded q k →
  (sx_slock ;; icl_find offload)%kern k = Done (Some (i, im)) k' →
  name ≠ "" →
  strcasecmp (im_name im) name ≠ 0 →
  icl_unregister (Some name) k = Done 0 k1 →
  ∃ i' k2, (sx_slock ;; icl_find offload)%kern k1 = Done (Some (i', im)) k2.
Proof.
  intros Hname Hk Hsel Hne Hdiff Hun.
  apply (sx_slock_find_done _ q) in Hsel; [|done].
  rewrite (find_in_unspecified _ _ Hname) in Hsel. symmetry in Hsel.
  apply find_highest_at in Hsel.
  rewrite (icl_unregister_run _ q k Hk), find_in_named in Hun by done.
  destruct (find_named name q) as [[j y]|] eqn:Hf; [|by injection Hun].
  injection Hun as <-. apply find_named_Some in Hf as (Hj & Hy & _).
  assert (Hji : j ≠ i).
  { intros ->. destruct Hsel as [Hi _]. congruence. }
  apply (highest_at_delete _ _ _ j) in Hsel; [|done].
  eexists _, _.
  rewrite (sx_slock_find_run _ _ _ (settled_loaded _ _ _ _)).
  rewrite (find_in_unspecified _ _ Hname). do 2 f_equal.
  by apply find_highest_at.
Qed.

(** ** Allocations and the life cycle of the module *)

(** X12. Nothing leaks while the module is loaded: after any run of the
    entry points from a loaded module with an empty queue, the number of
    live allocations is what it was at the start plus two for each module
    in the queue, the record and its name. *)
Theorem m_icl_invariant k0 ls k :
  loaded [] k0 →
  icl_run k0 ls k →
  m_icl k = (m_icl k0 + 2 * length (registry k))%nat.
Proof.
  intros Hk0 Hrun.
  destruct (icl_run_alloc (m_icl k0) [] k0 ls k Hk0) as (q & Hk & Hm);
    [simpl; lia|done|].
  by rewrite (loaded_registry q k Hk).
Qed.

(** X13. A whole life cycle leaves nothing behind.  Loading through
    [icl_modevent] always returns 0; if, after any run of the entry points,
    unloading through [icl_modevent] returns, then it returns 0, as many
    removals had succeeded as registrations, the queue was empty, the softc
    is gone and the number of live allocations is back to what it was
    before loading. *)
Theorem icl_lifecycle_no_leak k00 r0 k0 ls k r kf :
  icl_modevent MOD_LOAD k00 = Done r0 k0 →
  icl_run k0 ls k →
  icl_modevent MOD_UNLOAD k = Done r kf →
  r0 = 0 ∧ r = 0 ∧
  successes registered ls = successes unregistered ls ∧
  registry k = [] ∧ sc kf = None ∧ m_icl kf = m_icl k00.
Proof.
  simpl icl_modevent. rewrite icl_load_run. intros [= <- <-] Hrun Hun.
  pose proof (settled_loaded [] (klog k00) (S (m_icl k00)) (drivers k00)) as Hk0.
  destruct (icl_run_queue [] _ ls k Hk0 Hrun) as (q & Hk & _ & Hlen).
  destruct (icl_run_alloc (S (m_icl k00)) [] _ ls k Hk0 ltac:(simpl; lia) Hrun)
    as (q' & Hk' & Hm).
  assert (q' = q) as -> by (unfold loaded in *; congruence).
  rewrite (icl_unload_run q k Hk) in Hun. destruct q as [|a q]; [|done].
  injection Hun as <- <-. rewrite (loaded_registry [] k Hk).
  simpl in *. split_and!; try done; lia.
Qed.

(** ** Listing after a registration *)

(** X14. A registration shows at the front of the listing: after a
    successful registration the sysctl handler reports the new name alone
    if the queue was empty, and otherwise the new name, one space, and the
    listing as it was before. *)
Theorem drivers_after_register {sysctl_req : Type}
    (sysctl_out : sysctl_req → string → Z * sysctl_req) req
    name priority limits new_conn q k k1 :
  loaded q k →
  icl_register (Some name) priority limits new_conn k = Done 0 k1 →
  sysctl_kern_icl_drivers sysctl_out req k1 =
    Done
      (sysctl_out req
         (match q with
          | [] => name
          | _ :: _ => name +:+ " " +:+ join_names q
          end))
      k1.
Proof.
  intros Hk Hreg.
  destruct (icl_register_done _ _ _ _ q k k1 Hk Hreg) as [_ ->].
  rewrite (sysctl_kern_icl_drivers_run _ _ _ _ (settled_loaded _ _ _ _)).
  by destruct q.
Qed.

(** ** Calls that fail *)

(** X15. A refused call has no effect beyond its log entry.  From any
    state, [icl_register] returns 0 or EBUSY and [icl_unregister] returns 0
    or ENXIO; when the status is not 0 the softc (lock and queue), the
    number of allocations and the drivers are as before the call, and the
    log has gained exactly one warning. *)
Theorem refused_calls_change_nothing offload priority limits new_conn k :
  (∀ error k',
     icl_register offload priority limits new_conn k = Done error k' →
     error = 0 ∨
     error = EBUSY ∧
     k' = with_log (klog k ++ [ev_warn msg_already_registered offload]) k) ∧
  (∀ error k',
     icl_unregister offload k = Done error k' →
     error = 0 ∨
     error = ENXIO ∧
     k' = with_log (klog k ++ [ev_warn msg_not_registered offload]) k).
Proof.
  destruct k as [[[lk q]|] lg n w]; [|by split]. split; intros error k'.
  - unfold icl_register, bind, sx_xlock, icl_find, sx_assert_locked, modules,
      softc. destruct lk; try done. simpl.
    destruct (find_in offload q) as [r|].
    + intros [= <- <-]. by right.
    + destruct offload; [|done]. intros [= <- _]. by left.
  - unfold icl_unregister, bind, sx_xlock, icl_find, sx_assert_locked,
      modules, softc. destruct lk; try done. simpl.
    destruct (find_in offload q) as [[i im]|].
    + intros [= <- _]. by left.
    + intros [= <- <-]. by right.
Qed.

End Further.

(** * The further properties on the sample drivers *)



Lemma icl_step_lock_sample :
  icl_step (held [sample_module "B" 5; sample_module "A" 1]) l_other
    {| sc := shared [sample_module "B" 5; sample_module "A" 1];
       klog := [ev_new_conn sample_new_conn "conn0" 7%nat];
       m_icl := 5; drivers := 1%nat |} ∧
  lock_of
    {| sc := shared [sample_module "B" 5; sample_module "A" 1];
       klog := [ev_new_conn sample_new_conn "conn0" 7%nat];
       m_icl := 5; drivers := 1%nat |} =
    lock_of (held [sample_module "B" 5; sample_module "A" 1]).
Proof.
  assert (H : icl_step (held [sample_module "B" 5; sample_module "A" 1]) l_other
                {| sc := shared [sample_module "B" 5; sample_module "A" 1];
                   klog := [ev_new_conn sample_new_conn "conn0" 7%nat];
                   m_icl := 5; drivers := 1%nat |}).
  { by apply (step_new_conn (Some "a") "conn0" 7%nat (Some 0%nat)). }
  split; [exact H|]. exact (icl_step_lock _ _ _ H).
Defined.

Lemma lookups_leave_softc_sample :
  sc {| sc := shared [sample_module "B" 5; sample_module "A" 1];
        klog := [ev_limits (sample_limits 0) 3%nat];
        m_icl := 5; drivers := 0%nat |} =
    sc (held [sample_module "B" 5; sample_module "A" 1]) ∧
  m_icl {| sc := shared [sample_module "B" 5; sample_module "A" 1];
           klog := [ev_limits (sample_limits 0) 3%nat];
           m_icl := 5; drivers := 0%nat |} =
    m_icl (held [sample_module "B" 5; sample_module "A" 1]).
Proof.
  destruct (lookups_leave_softc sample_sysctl_out [] None "conn0" 7%nat 3%nat
              (held [sample_module "B" 5; sample_module "A" 1]))
    as (_ & Hlimits & _).
  by apply (Hlimits 0).
Defined.

Lemma icl_register_twice_sample :
  loaded [] (warm []) ∧
  icl_register (Some "A") 5 (sample_limits 0) sample_new_conn (warm []) =
    Done 0
      (settled [sample_module "A" 5] [ev_debug msg_registered (Some "A")]
         3 0%nat) ∧
  strcasecmp "A" "a" = 0 ∧
  icl_register (Some "a") 9 (sample_limits 6) broken_new_conn
      (settled [sample_module "A" 5] [ev_debug msg_registered (Some "A")]
         3 0%nat) =
    Done EBUSY
      (settled [sample_module "A" 5]
         [ev_debug msg_registered (Some "A");
          ev_warn msg_already_registered (Some "a")] 3 0%nat).
Proof.
  split_and!; [reflexivity | reflexivity | reflexivity |].
  by apply (icl_register_twice "A" 5 (sample_limits 0) sample_new_conn
              "a" 9 (sample_limits 6) broken_new_conn [] (warm [])).
Defined.

Lemma icl_register_then_lookup_sample :
  loaded [sample_module "B" 5] (warm [sample_module "B" 5]) ∧
  "a" ≠ "" ∧
  strcasecmp "A" "a" = 0 ∧
  icl_new_conn (Some "a") "conn0" 7%nat
      (settled [sample_module "A" 1; sample_module "B" 5]
         [ev_debug msg_registered (Some "A")] 5 0%nat) =
    Done (Some 0%nat)
      (settled [sample_module "A" 1; sample_module "B" 5]
         [ev_debug msg_registered (Some "A");
          ev_new_conn sample_new_conn "conn0" 7%nat] 5 1%nat).
Proof.
  split_and!; [reflexivity | discriminate | reflexivity |].
  by apply (icl_register_then_lookup "A" 1 (sample_limits 0) sample_new_conn
              "a" "conn0" 7%nat 3%nat [sample_module "B" 5]
              (warm [sample_module "B" 5])).
Defined.

Lemma icl_register_unregister_sample :
  loaded [sample_module "B" 5] (warm [sample_module "B" 5]) ∧
  "a" ≠ "" ∧
  strcasecmp "A" "a" = 0 ∧
  icl_unregister (Some "a")
      (settled [sample_module "A" 1; sample_module "B" 5]
         [ev_debug msg_registered (Some "A")] 5 0%nat) =
    Done 0
      (with_log [ev_debug msg_registered (Some "A");
                 ev_debug msg_unregistered (Some "a")]
         (warm [sample_module "B" 5])).
Proof.
  split_and!; [reflexivity | discriminate | reflexivity |].
  by apply (icl_register_unregister "A" 1 (sample_limits 0) sample_new_conn
              "a" [sample_module "B" 5] (warm [sample_module "B" 5])).
Defined.

Lemma icl_unregister_own_name_sample :
  loaded [sample_module "B" 5; sample_module "A" 1]
    (warm [sample_module "B" 5; sample_module "A" 1]) ∧
  unique_names [sample_module "B" 5; sample_module "A" 1] ∧
  ∃ k1,
    icl_unregister (Some "A")
        (warm [sample_module "B" 5; sample_module "A" 1]) = Done 0 k1 ∧
    loaded [sample_module "B" 5] k1 ∧
    (∃ k2, icl_limits (Some "A") 3%nat k1 = Done ENXIO k2) ∧
    (∃ k2, icl_new_conn (Some "A") "conn0" 7%nat k1 = Done None k2).
Proof.
  assert (H1 : loaded [sample_module "B" 5; sample_module "A" 1]
                 (warm [sample_module "B" 5; sample_module "A" 1]))
    by reflexivity.
  assert (H2 : unique_names [sample_module "B" 5; sample_module "A" 1]).
  { intros [|[|i]] [|[|j]] a b Ha Hb Hab; try done;
      injection Ha as <-; injection Hb as <-; vm_compute in Hab; discriminate. }
  split_and!; [exact H1 | exact H2 |].
  destruct (icl_unregister_own_name _ _ 1%nat (sample_module "A" 1) H1 H2
              eq_refl ltac:(discriminate))
    as (k1 & Hun & Hk1 & Hlimits & Hconn & _).
  exists k1. split_and!; [exact Hun | exact Hk1 | apply Hlimits | apply Hconn].
Defined.

Lemma icl_unregister_unspecified_sample :
  name_unspecified None = true ∧
  loaded [sample_module "A" 1; sample_module "B" 5; sample_module "C" 5]
    (warm [sample_module "A" 1; sample_module "B" 5; sample_module "C" 5]) ∧
  icl_unregister None
      (warm [sample_module "A" 1; sample_module "B" 5; sample_module "C" 5]) =
    Done 0
      (settled [sample_module "A" 1; sample_module "C" 5]
         [ev_debug msg_unregistered None] 5 0%nat).
Proof.
  assert (H1 : name_unspecified None = true) by reflexivity.
  assert (H2 : loaded
                 [sample_module "A" 1; sample_module "B" 5; sample_module "C" 5]
                 (warm [sample_module "A" 1; sample_module "B" 5;
                        sample_module "C" 5]))
    by reflexivity.
  split_and!; [exact H1 | exact H2 |].
  destruct (icl_unregister_unspecified None _ _ H1 H2) as [_ Hfull].
  destruct (Hfull ltac:(discriminate)) as (i & im & Hat & ->).
  assert (Hb : highest_at
                 [sample_module "A" 1; sample_module "B" 5; sample_module "C" 5]
                 1%nat (sample_module "B" 5)).
  { split; [reflexivity|].
    intros [|[|[|j]]] x Hx; try done; injection Hx as <-; simpl; split; lia. }
  by destruct (highest_at_unique _ _ _ _ _ Hat Hb) as [-> ->].
Defined.

Lemma icl_register_takes_over_sample :
  name_unspecified None = true ∧
  loaded [sample_module "A" 5] (warm [sample_module "A" 5]) ∧
  (∃ k2,
     (sx_slock ;; icl_find None)%kern
       (settled [sample_module "B" 3; sample_module "A" 5]
          [ev_debug msg_registered (Some "B")] 5 0%nat) =
       Done (Some (1%nat, sample_module "A" 5)) k2) ∧
  (∃ k2,
     (sx_slock ;; icl_find None)%kern
       (settled [sample_module "B" 5; sample_module "A" 5]
          [ev_debug msg_registered (Some "B")] 5 0%nat) =
       Done (Some (0%nat, sample_module "B" 5)) k2).
Proof.
  assert (H1 : name_unspecified None = true) by reflexivity.
  assert (H2 : loaded [sample_module "A" 5] (warm [sample_module "A" 5]))
    by reflexivity.
  split_and!; [exact H1 | exact H2 | |].
  - by apply (icl_register_takes_over None "B" 3 (sample_limits 0)
                sample_new_conn _ _
                (held [sample_module "A" 5]) _ 0%nat (sample_module "A" 5)
                H1 H2).
  - by apply (icl_register_takes_over None "B" 5 (sample_limits 0)
                sample_new_conn _ _
                (held [sample_module "A" 5]) _ 0%nat (sample_module "A" 5)
                H1 H2).
Defined.

Lemma icl_unregister_keeps_selection_sample :
  name_unspecified None = true ∧
  loaded [sample_module "B" 5; sample_module "A" 1]
    (warm [sample_module "B" 5; sample_module "A" 1]) ∧
  "a" ≠ "" ∧
  strcasecmp "B" "a" ≠ 0 ∧
  ∃ i' k2,
    (sx_slock ;; icl_find None)%kern
      (settled [sample_module "B" 5] [ev_debug msg_unregistered (Some "a")]
         3 0%nat) =
      Done (Some (i', sample_module "B" 5)) k2.
Proof.
  assert (H1 : name_unspecified None = true) by reflexivity.
  assert (H2 : loaded [sample_module "B" 5; sample_module "A" 1]
                 (warm [sample_module "B" 5; sample_module "A" 1]))
    by reflexivity.
  assert (H3 : "a" ≠ "") by discriminate.
  assert (H4 : strcasecmp "B" "a" ≠ 0) by (vm_compute; discriminate).
  split_and!; [exact H1 | exact H2 | exact H3 | exact H4 |].
  by apply (icl_unregister_keeps_selection None "a" _ _
              (held [sample_module "B" 5; sample_module "A" 1]) _
              0%nat (sample_module "B" 5) H1 H2 eq_refl H3 H4).
Defined.

Lemma m_icl_invariant_sample :
  loaded [] (warm []) ∧
  icl_run (warm []) [l_register 0; l_register EBUSY; l_register 0]
    (settled [sample_module "B" 5; sample_module "A" 5]
       [ev_debug msg_registered (Some "A");
        ev_warn msg_already_registered (Some "a");
        ev_debug msg_registered (Some "B")] 5 0%nat) ∧
  m_icl
    (settled [sample_module "B" 5; sample_module "A" 5]
       [ev_debug msg_registered (Some "A");
        ev_warn msg_already_registered (Some "a");
        ev_debug msg_registered (Some "B")] 5 0%nat) =
    (m_icl (warm []) +
     2 * length
           (registry
              (settled [sample_module "B" 5; sample_module "A" 5]
                 [ev_debug msg_registered (Some "A");
                  ev_warn msg_already_registered (Some "a");
                  ev_debug msg_registered (Some "B")] 5 0%nat)))%nat.
Proof.
  assert (H1 : loaded [] (warm [])) by reflexivity.
  assert (H2 : icl_run (warm []) [l_register 0; l_register EBUSY; l_register 0]
                 (settled [sample_module "B" 5; sample_module "A" 5]
                    [ev_debug msg_registered (Some "A");
                     ev_warn msg_already_registered (Some "a");
                     ev_debug msg_registered (Some "B")] 5 0%nat)).
  { apply (run_cons _ _
             (settled [sample_module "A" 5]
                [ev_debug msg_registered (Some "A")] 3 0%nat)).
    { by apply (step_register (Some "A") 5 (sample_limits 0) sample_new_conn). }
    apply (run_cons _ _
             (settled [sample_module "A" 5]
                [ev_debug msg_registered (Some "A");
                 ev_warn msg_already_registered (Some "a")] 3 0%nat)).
    { by apply (step_register (Some "a") 9 (sample_limits 0) sample_new_conn). }
    apply (run_cons _ _
             (settled [sample_module "B" 5; sample_module "A" 5]
                [ev_debug msg_registered (Some "A");
                 ev_warn msg_already_registered (Some "a");
                 ev_debug msg_registered (Some "B")] 5 0%nat)).
    { by apply (step_register (Some "B") 5 (sample_limits 0) sample_new_conn). }
    apply run_nil. }
  split_and!; [exact H1 | exact H2 |].
  exact (m_icl_invariant _ _ _ H1 H2).
Defined.

Lemma icl_lifecycle_no_leak_sample :
  icl_modevent MOD_LOAD cold = Done 0 (warm []) ∧
  icl_run (warm []) [l_register 0; l_unregister 0]
    (settled []
       [ev_debug msg_registered (Some "A");
        ev_debug msg_unregistered (Some "a")] 1 0%nat) ∧
  icl_modevent MOD_UNLOAD
      (@settled nat nat nat nat []
         [ev_debug msg_registered (Some "A");
          ev_debug msg_unregistered (Some "a")] 1 0%nat) =
    Done 0
      {| sc := None;
         klog := [ev_debug msg_registered (Some "A");
                  ev_debug msg_unregistered (Some "a")];
         m_icl := 0; drivers := 0%nat |} ∧
  m_icl
    {| sc := @None (@icl_softc nat nat nat nat);
       klog := [ev_debug msg_registered (Some "A");
                ev_debug msg_unregistered (Some "a")];
       m_icl := 0; drivers := 0%nat |} = m_icl cold.
Proof.
  assert (H1 : icl_modevent MOD_LOAD cold = Done 0 (warm [])) by reflexivity.
  assert (H2 : icl_run (warm []) [l_register 0; l_unregister 0]
                 (settled []
                    [ev_debug msg_registered (Some "A");
                     ev_debug msg_unregistered (Some "a")] 1 0%nat)).
  { apply (run_cons _ _
             (settled [sample_module "A" 5]
                [ev_debug msg_registered (Some "A")] 3 0%nat)).
    { by apply (step_register (Some "A") 5 (sample_limits 0) sample_new_conn). }
    apply (run_cons _ _
             (settled []
                [ev_debug msg_registered (Some "A");
                 ev_debug msg_unregistered (Some "a")] 1 0%nat)).
    { by apply (step_unregister (Some "a")). }
    apply run_nil. }
  assert (H3 : icl_modevent MOD_UNLOAD
                 (@settled nat nat nat nat []
                    [ev_debug msg_registered (Some "A");
                     ev_debug msg_unregistered (Some "a")] 1 0%nat) =
               Done 0
                 {| sc := None;
                    klog := [ev_debug msg_registered (Some "A");
                             ev_debug msg_unregistered (Some "a")];
                    m_icl := 0; drivers := 0%nat |}) by reflexivity.
  split_and!; [exact H1 | exact H2 | exact H3 |].
  by destruct (icl_lifecycle_no_leak _ _ _ _ _ _ _ H1 H2 H3)
    as (_ & _ & _ & _ & _ & Hm).
Defined.

Lemma drivers_after_register_sample :
  loaded [sample_module "B" 5; sample_module "A" 1]
    (warm [sample_module "B" 5; sample_module "A" 1]) ∧
  sysctl_kern_icl_drivers sample_sysctl_out []
      (settled [sample_module "C" 3; sample_module "B" 5; sample_module "A" 1]
         [ev_debug msg_registered (Some "C")] 7 0%nat) =
    Done (0, ["C B A"])
      (settled [sample_module "C" 3; sample_module "B" 5; sample_module "A" 1]
         [ev_debug msg_registered (Some "C")] 7 0%nat).
Proof.
  split; [reflexivity|].
  by apply (drivers_after_register sample_sysctl_out [] "C" 3 (sample_limits 0)
              sample_new_conn [sample_module "B" 5; sample_module "A" 1]
              (warm [sample_module "B" 5; sample_module "A" 1])).
Defined.
